(** * Tesla dashcam MP4 parser and SEI extractor: a shallow embedding

    The development follows [src/dashcam-mp4.js].  The parser class
    [DashcamMP4] owns an [ArrayBuffer] and a [DataView] over the same bytes;
    both are modelled by one immutable list of bytes.  Byte positions, box
    sizes and tick counts are JavaScript numbers holding integers far below
    2^53, where JavaScript arithmetic is exact: they are modelled by [Z].

    A [DataView] accessor raises [RangeError] when the requested bytes do not
    lie inside the buffer.  Nothing in the parser catches that exception, so
    the parsing functions live in an error monad whose [Throw] case carries
    the JavaScript exception. *)

From Stdlib Require Import ZArith List Strings.String Strings.Ascii Strings.Byte Bool Lia QArith.
From Stdlib Require Floats Uint63.
Import ListNotations.
Open Scope Z_scope.

Set Implicit Arguments.

(** ** Exceptions and results *)

Inductive exn : Type :=
| RangeError
| Error (message : string).

(** [NoFuel] is not a JavaScript outcome: it marks a [while] loop of the model
    that was given too few iterations.  The loops below are started with an
    iteration budget that is proved sufficient ([findBox_total],
    [extractSeiMessages_total]). *)
Inductive result (A : Type) : Type :=
| Ok (a : A)
| Throw (e : exn)
| NoFuel.

Arguments Throw {A} e.
Arguments NoFuel {A}.

Definition bind {A B : Type} (r : result A) (k : A -> result B) : result B :=
  match r with
  | Ok a => k a
  | Throw e => Throw e
  | NoFuel => NoFuel
  end.

Notation "x <- r ;; k" := (bind r (fun x => k))
  (at level 61, r at next level, right associativity).

(** ** Buffers and the DataView accessors *)

Definition buffer := list byte.

Definition byteLength (b : buffer) : Z := Z.of_nat (List.length b).

Definition byteval (b : byte) : Z := Z.of_N (Byte.to_N b).

(** The byte stored at position [i]; only used at positions inside the
    buffer. *)
Definition rawByte (b : buffer) (i : Z) : Z := byteval (nth (Z.to_nat i) b x00).

(** [DataView.prototype.getUint8] *)
Definition getUint8 (b : buffer) (off : Z) : result Z :=
  if (0 <=? off) && (off + 1 <=? byteLength b)
  then Ok (rawByte b off)
  else Throw RangeError.

(** [DataView.prototype.getUint32], big-endian (the default). *)
Definition getUint32 (b : buffer) (off : Z) : result Z :=
  if (0 <=? off) && (off + 4 <=? byteLength b)
  then Ok (rawByte b off * 16777216 + rawByte b (off + 1) * 65536
           + rawByte b (off + 2) * 256 + rawByte b (off + 3))
  else Throw RangeError.

(** [String.fromCharCode] on a byte value. *)
Definition fromCharCode (c : Z) : string :=
  String (ascii_of_N (Z.to_N c)) EmptyString.

(** [getString(offset, length)]: the loop body runs [length] times; [n] counts
    the iterations that remain and [i] is the loop variable. *)
Fixpoint getString_loop (b : buffer) (offset : Z) (n : nat) (i : Z)
    (str : string) : result string :=
  match n with
  | O => Ok str
  | S n' =>
      c <- getUint8 b (offset + i) ;;
      getString_loop b offset n' (i + 1) (str ++ fromCharCode c)
  end.

Definition getString (b : buffer) (offset length : Z) : result string :=
  getString_loop b offset (Z.to_nat length) 0 EmptyString.

(** ** Box Navigator *)

Record Box : Type := mkBox { offset : Z; size : Z; type : string }.

(** The [while (offset < end)] loop of [findBox]. *)
Fixpoint findBox_loop (fuel : nat) (b : buffer) (offset end_ : Z)
    (name : string) : result (option Box) :=
  match fuel with
  | O => NoFuel
  | S fuel' =>
      if offset <? end_ then
        size <- getUint32 b offset ;;
        type <- getString b (offset + 4) 4 ;;
        if size =? 0 then Ok None
        else if size =? 1 then findBox_loop fuel' b (offset + 16) end_ name
        else if String.eqb type name then Ok (Some (mkBox offset size type))
        else findBox_loop fuel' b (offset + size) end_ name
      else Ok None
  end.

(** Every iteration that continues moves [offset] forward by at least 2, so
    [end - start] iterations plus the final test are enough. *)
Definition findBox (b : buffer) (start end_ : Z) (name : string)
    : result (option Box) :=
  findBox_loop (S (Z.to_nat (end_ - start))) b start end_ name.

(** ** Timing Extractor *)

Record TrackTiming : Type := mkTiming { timescale : Z; durations : list Z }.

(** The inner loop [for (j = 0; j < sampleCount; j++) durations.push(sampleDelta)]. *)
Fixpoint push_times (n : nat) (sampleDelta : Z) (durations : list Z) : list Z :=
  match n with
  | O => durations
  | S n' => push_times n' sampleDelta (durations ++ [sampleDelta])
  end.

(** The outer loop over the [entryCount] entries of the time-to-sample box. *)
Fixpoint stts_loop (b : buffer) (n : nat) (pos : Z) (durations : list Z)
    : result (list Z) :=
  match n with
  | O => Ok durations
  | S n' =>
      sampleCount <- getUint32 b pos ;;
      sampleDelta <- getUint32 b (pos + 4) ;;
      stts_loop b n' (pos + 8)
        (push_times (Z.to_nat sampleCount) sampleDelta durations)
  end.

Definition getTimescaleAndDurations (b : buffer) : result (option TrackTiming) :=
  moov <- findBox b 0 (byteLength b) "moov" ;;
  match moov with None => Ok None | Some moov =>
  trak <- findBox b (offset moov + 8) (offset moov + size moov) "trak" ;;
  match trak with None => Ok None | Some trak =>
  mdia <- findBox b (offset trak + 8) (offset trak + size trak) "mdia" ;;
  match mdia with None => Ok None | Some mdia =>
  mdhd <- findBox b (offset mdia + 8) (offset mdia + size mdia) "mdhd" ;;
  match mdhd with None => Ok None | Some mdhd =>
  let mdhdOffset := offset mdhd + 8 in
  version <- getUint8 b mdhdOffset ;;
  timescale <-
    (if version =? 0 then getUint32 b (mdhdOffset + 12)
     else getUint32 b (mdhdOffset + 20)) ;;
  minf <- findBox b (offset mdia + 8) (offset mdia + size mdia) "minf" ;;
  match minf with None => Ok (Some (mkTiming timescale [])) | Some minf =>
  stbl <- findBox b (offset minf + 8) (offset minf + size minf) "stbl" ;;
  match stbl with None => Ok (Some (mkTiming timescale [])) | Some stbl =>
  stts <- findBox b (offset stbl + 8) (offset stbl + size stbl) "stts" ;;
  match stts with None => Ok (Some (mkTiming timescale [])) | Some stts =>
  let sttsOffset := offset stts + 8 in
  entryCount <- getUint32 b (sttsOffset + 4) ;;
  durations <- stts_loop b (Z.to_nat entryCount) (sttsOffset + 8) [] ;;
  Ok (Some (mkTiming timescale durations))
  end end end end end end end.

Definition getMdatInfo (b : buffer) : result (option Box) :=
  findBox b 0 (byteLength b) "mdat".

(** ** Byte arrays: indexing, [slice] and [subarray] *)

(** [a[i]] on a [Uint8Array]: [None] stands for [undefined], the value of an
    index outside the array. *)
Definition item (a : list byte) (i : Z) : option byte :=
  if i <? 0 then None else nth_error a (Z.to_nat i).

(** [a[i] === c] for a byte constant [c]. *)
Definition item_is (a : list byte) (i : Z) (c : byte) : bool :=
  match item a i with
  | Some x => Byte.eqb x c
  | None => false
  end.

(** Relative index of [ArrayBuffer.prototype.slice] and
    [TypedArray.prototype.subarray]: negative positions count from the end,
    and every position is clamped to the array. *)
Definition relIndex (len x : Z) : Z :=
  if x <? 0 then Z.max (len + x) 0 else Z.min x len.

Definition slice (a : list byte) (begin_ end_ : Z) : list byte :=
  let len := Z.of_nat (List.length a) in
  let first := relIndex len begin_ in
  let final := relIndex len end_ in
  firstn (Z.to_nat (final - first)) (skipn (Z.to_nat first) a).

(** ** Emulation Byte Stripper *)

(** The [for] loop of [stripEmulationBytes]: [n] iterations remain, [i] is the
    loop variable, [result] the array being filled. *)
Fixpoint strip_loop (data : list byte) (n : nat) (i : Z) (result : list byte)
    : list byte :=
  match n with
  | O => result
  | S n' =>
      if (2 <=? i) && item_is data (i - 2) x00 && item_is data (i - 1) x00
         && item_is data i x03
      then strip_loop data n' (i + 1) result
      else strip_loop data n' (i + 1) (result ++ [nth (Z.to_nat i) data x00])
  end.

Definition stripEmulationBytes (data : list byte) : list byte :=
  strip_loop data (List.length data) 0 [].

(** ** Payload Marker Locator, Auxiliary Message Scanner, Orchestrator *)

(** JavaScript numbers that are not integers only arise from the division
    [time / timing.timescale].  Both operands are integers; the quotient is
    kept as an exact rational in lowest terms (the rounding of the quotient to
    a binary64 value is not modelled), and division by zero gives the IEEE
    special values. *)
Inductive number : Type :=
| Finite (q : Q)
| Infinity (negative : bool)
| NaN.

Definition divide (a b : Z) : number :=
  if b =? 0 then (if a =? 0 then NaN else Infinity (a <? 0))
  else Finite (Qred (inject_Z a / inject_Z b)).

(** The loop of lines 263-269, [for (i = 0; i < timing.durations.length; i++)],
    run over the remaining durations. *)
Fixpoint timestamps_loop (timescale : Z) (durations : list Z) (time : Z)
    (timestamps : list number) : list number :=
  match durations with
  | [] => timestamps
  | d :: rest =>
      timestamps_loop timescale rest (time + d)
        (timestamps ++ [divide time timescale])
  end.

(** The Timestamp Builder: lines 263-269 of [processSingleVideo]. *)
Definition buildTimestamps (timing : TrackTiming) : list number :=
  timestamps_loop (timescale timing) (durations timing) 0 [].

(** The [File] handed to [processSingleVideo]: its name and the bytes that
    [file.arrayBuffer()] resolves to. *)
Record File : Type := mkFile { name : string; arrayBuffer : buffer }.

Section Schema.

(** The protobuf message type is an external collaborator: [Message] is what
    [decode] returns, [Obj] what [toObject] returns. *)
Variables Message Obj : Type.

(** [decode] fails (throws) on malformed input: [None]. *)
Record SeiType : Type := mkSeiType {
  decode : list byte -> option Message;
  toObject : Message -> Obj
}.

(** [while (i < nal.length && nal[i] === 0x42) i++].  The loop runs at most
    [nal.length] times from [i = 3]; [marker_loop_exit] shows that the index
    returned falsifies the loop condition. *)
Fixpoint marker_loop (nal : list byte) (fuel : nat) (i : Z) : Z :=
  match fuel with
  | O => i
  | S fuel' =>
      if (i <? Z.of_nat (List.length nal)) && item_is nal i x42
      then marker_loop nal fuel' (i + 1)
      else i
  end.

(** [decodeSei]: [None] is [null].  The [try]/[catch] turns an exception of
    the decoder into [null]. *)
Definition decodeSei (nal : list byte) (seiType : option SeiType) : option Obj :=
  match seiType with
  | None => None
  | Some seiType =>
      let len := Z.of_nat (List.length nal) in
      if len <? 4 then None
      else
        let i := marker_loop nal (List.length nal) 3 in
        if (i <=? 3) || (i + 1 >=? len) || negb (item_is nal i x69) then None
        else
          let protobufData := stripEmulationBytes (slice nal (i + 1) (len - 1)) in
          if Z.of_nat (List.length protobufData) <? 4 then None
          else
            match decode seiType protobufData with
            | Some message => Some (toObject seiType message)
            | None => None
            end
  end.

(** The [while (cursor + 4 <= end)] loop of [extractSeiMessages]. *)
Fixpoint sei_loop (fuel : nat) (b : buffer) (seiType : option SeiType)
    (cursor end_ : Z) (seiMessages : list Obj) : result (list Obj) :=
  match fuel with
  | O => NoFuel
  | S fuel' =>
      if cursor + 4 <=? end_ then
        nalSize <- getUint32 b cursor ;;
        let cursor := cursor + 4 in
        if (nalSize <? 2) || (cursor + nalSize >? byteLength b) then
          sei_loop fuel' b seiType (cursor + Z.max nalSize 0) end_ seiMessages
        else
          byte0 <- getUint8 b cursor ;;
          let nalType := Z.land byte0 31 in
          payloadType <- getUint8 b (cursor + 1) ;;
          let seiMessages :=
            if (nalType =? 6) && (payloadType =? 5) then
              match decodeSei (slice b cursor (cursor + nalSize)) seiType with
              | Some decoded => seiMessages ++ [decoded]
              | None => seiMessages
              end
            else seiMessages in
          sei_loop fuel' b seiType (cursor + nalSize) end_ seiMessages
      else Ok seiMessages
  end.

(** Every iteration moves [cursor] forward by at least 4. *)
Definition extractSeiMessages (b : buffer) (seiType : option SeiType)
    : result (list Obj) :=
  mdat <- getMdatInfo b ;;
  match mdat with
  | None => Ok []
  | Some mdat =>
      let cursor := offset mdat + 8 in
      let end_ := offset mdat + size mdat in
      sei_loop (S (Z.to_nat (end_ - cursor))) b seiType cursor end_ []
  end.

(** What [processSingleVideo] resolves to.  The [url] (an object URL made by
    the browser) and the [label] (filename heuristics) fields are outside the
    parsing pipeline and are left out. *)
Record VideoResult : Type := mkVideoResult {
  file : File;
  telemetry : list Obj;
  frameTimestamps : list number
}.

(** [SeiMetadata] is the cached module-level schema, [None] before
    [initProtobuf] has run. *)
Definition processSingleVideo (SeiMetadata : option SeiType) (file : File)
    : result VideoResult :=
  match SeiMetadata with
  | None => Throw (Error "Protobuf not initialized. Call initProtobuf() first.")
  | Some _ =>
      let buffer := arrayBuffer file in
      timing <- getTimescaleAndDurations buffer ;;
      match timing with
      | None => Throw (Error "Could not parse video timing")
      | Some timing =>
          seiMessages <- extractSeiMessages buffer SeiMetadata ;;
          if Z.of_nat (List.length seiMessages) =? 0
          then Throw (Error "No telemetry data found")
          else Ok (mkVideoResult file seiMessages (buildTimestamps timing))
      end
  end.

End Schema.

(** ** Container encoders

    The repository has no writer for the container format.  The encoders below
    lay out boxes and length-prefixed units the way the parser reads them;
    they are used to state properties about well-formed input and to build
    concrete buffers. *)

Definition byte_of_Z (z : Z) : byte :=
  match Byte.of_N (Z.to_N (z mod 256)) with
  | Some x => x
  | None => x00
  end.

(** Four bytes, most significant first. *)
Definition be32 (n : Z) : list byte :=
  [byte_of_Z (n / 16777216); byte_of_Z (n / 65536); byte_of_Z (n / 256);
   byte_of_Z n].

Definition bytes_of_list (l : list Z) : list byte := map byte_of_Z l.

(** A standard box: 4-byte size (header included), 4-character tag, content. *)
Definition box_bytes (tag : string) (content : list byte) : list byte :=
  be32 (8 + Z.of_nat (List.length content)) ++ list_byte_of_string tag ++ content.

(** A length-prefixed unit of the raw-media-data box. *)
Definition unit_bytes (declared : Z) (body : list byte) : list byte :=
  be32 declared ++ body.

(** The content of a time-to-sample box from its content start: 4 bytes of
    version and flags, the entry count, then the (sample_count, sample_delta)
    entries. *)
Definition stts_entries_bytes (entries : list (Z * Z)) : list byte :=
  be32 (Z.of_nat (List.length entries))
  ++ flat_map (fun e => be32 (fst e) ++ be32 (snd e)) entries.

Definition stts_content (entries : list (Z * Z)) : list byte :=
  be32 0 ++ stts_entries_bytes entries.

(** The media-header content, version 0: version and flags, creation and
    modification times, timescale, duration, language and quality. *)
Definition mdhd_content_v0 (timescale : Z) : list byte :=
  be32 0 ++ be32 0 ++ be32 0 ++ be32 timescale ++ be32 0 ++ be32 0.

(** A movie box with the whole timing path. *)
Definition moov_bytes (timescale : Z) (entries : list (Z * Z)) : list byte :=
  box_bytes "moov"
    (box_bytes "trak"
       (box_bytes "mdia"
          (box_bytes "mdhd" (mdhd_content_v0 timescale)
           ++ box_bytes "minf"
                (box_bytes "stbl" (box_bytes "stts" (stts_content entries)))))).


(** A qualifying unit: type byte 6, payload type 5, one reserved byte, a run
    of two 0x42 bytes, the 0x69 marker, the payload and the trailer byte. *)
Definition sei_unit (payload : list byte) : list byte :=
  bytes_of_list [6; 5; 0; 66; 66; 105] ++ payload ++ [x80].

(** ** Concrete inputs *)

(** The identity schema: every payload decodes to itself. *)
Definition idSchema : SeiType (list byte) (list byte) :=
  mkSeiType (fun data => Some data) (fun message => message).

(** A schema whose decoder rejects every payload. *)
Definition failSchema : SeiType (list byte) (list byte) :=
  mkSeiType (fun _ => None) (fun message => message).

Definition payload1 : list byte := bytes_of_list [8; 42; 16; 1].

Definition unit1 : list byte := sei_unit payload1.

(** A complete file: timescale 90000, one entry (2, 3000), one qualifying
    unit. *)
Definition file_ok : buffer :=
  moov_bytes 90000 [(2, 3000)]
  ++ box_bytes "mdat" (unit_bytes (Z.of_nat (List.length unit1)) unit1).

(** Four bytes: a size field with no tag after it. *)
Definition truncated4 : buffer := be32 8.

(** Two 8-byte buffers that agree on their first four bytes. *)
Definition header_moov : buffer := box_bytes "moov" [].
Definition header_free : buffer := box_bytes "free" [].

(** A header of declared size 0 tagged moov, followed by a movie box. *)
Definition terminated_region : buffer :=
  be32 0 ++ list_byte_of_string "moov" ++ box_bytes "moov" [].

(** A header of declared size 1 tagged moov whose 8-byte extended size field
    spells a 16-byte header tagged moov, followed by a movie box. *)
Definition extended_region : buffer :=
  be32 1 ++ list_byte_of_string "moov"
  ++ (be32 16 ++ list_byte_of_string "moov")
  ++ box_bytes "moov" [].

(** A raw-media-data box that fits the buffer and holds a unit declaring 255
    bytes, more than the buffer has left, followed by a qualifying unit. *)
Definition mdat_overlong : buffer :=
  box_bytes "mdat"
    (unit_bytes 255 [] ++ unit_bytes (Z.of_nat (List.length unit1)) unit1).

(** The same with a corrupt unit of declared length 1. *)
Definition mdat_short : buffer :=
  box_bytes "mdat"
    (unit_bytes 1 [x00] ++ unit_bytes (Z.of_nat (List.length unit1)) unit1).

(** A raw-media-data box declaring 32 bytes in a buffer of 12: its only unit
    declares 10 bytes. *)
Definition mdat_truncated : buffer :=
  be32 32 ++ list_byte_of_string "mdat" ++ be32 10.


(** Timing present, no raw-media-data box, four stray bytes at the end. *)
Definition file_no_mdat_trailing : buffer :=
  moov_bytes 90000 [(2, 3000)] ++ be32 8.

(** ** Loop bodies and outcome predicates *)

(** One iteration of the loop of [findBox], with [continue_] standing for the
    rest of the loop. *)
Definition findBox_step (b : buffer) (offset end_ : Z) (name : string)
    (continue_ : Z -> result (option Box)) : result (option Box) :=
  if offset <? end_ then
    size <- getUint32 b offset ;;
    type <- getString b (offset + 4) 4 ;;
    if size =? 0 then Ok None
    else if size =? 1 then continue_ (offset + 16)
    else if String.eqb type name then Ok (Some (mkBox offset size type))
    else continue_ (offset + size)
  else Ok None.

(** The positions a scan passes through: from [off] the loop of [findBox]
    moves on to [off + 16] over a header of declared size 1, and to
    [off + size] over a box of another size whose tag is not the name. *)
Inductive reaches (b : buffer) (end_ : Z) (name : string) : Z -> Z -> Prop :=
| reaches_here (off : Z) : reaches b end_ name off off
| reaches_extended (off off' : Z) (ty : string) :
    off < end_ ->
    getUint32 b off = Ok 1 ->
    getString b (off + 4) 4 = Ok ty ->
    reaches b end_ name (off + 16) off' ->
    reaches b end_ name off off'
| reaches_other (off off' sz : Z) (ty : string) :
    off < end_ ->
    getUint32 b off = Ok sz -> sz <> 0 -> sz <> 1 ->
    getString b (off + 4) 4 = Ok ty -> ty <> name ->
    reaches b end_ name (off + sz) off' ->
    reaches b end_ name off off'.

(** The outcome is a value or a [RangeError]: no other exception, and the
    loop ended. *)
Definition raises_only_RangeError {A : Type} (r : result A) : Prop :=
  match r with
  | Ok _ => True
  | Throw e => e = RangeError
  | NoFuel => False
  end.

(** Two buffers hold the same bytes below position [n] (and end at the same
    place when they end below [n]). *)
Definition agree_upto (n : Z) (b b' : buffer) : Prop :=
  firstn (Z.to_nat n) b = firstn (Z.to_nat n) b'.

(** Two buffers of the same length hold the same bytes from position [p]
    on. *)
Definition agree_from (p : Z) (b b' : buffer) : Prop :=
  List.length b = List.length b' /\ skipn (Z.to_nat p) b = skipn (Z.to_nat p) b'.

(** "An out-of-range read position is treated as not-found": the scan ends
    with a value. *)
Definition fails_soft (b : buffer) (start end_ : Z) (name : string) : Prop :=
  exists r, findBox b start end_ name = Ok r.

(** "Never reads past [region_end]": the bytes from [end_] on play no part in
    the result. *)
Definition confined_to_region (b : buffer) (start end_ : Z) (name : string) : Prop :=
  forall b', agree_upto end_ b b' ->
             findBox b' start end_ name = findBox b start end_ name.

(** ** The stripper, as the specification words it *)

(** The byte at position [i] is a 0x03 that follows two 0x00 bytes in the
    input. *)
Definition escaped (data : list byte) (i : nat) : bool :=
  match i with
  | S (S k) =>
      match nth_error data k, nth_error data (S k), nth_error data (S (S k)) with
      | Some z0, Some z1, Some t =>
          Byte.eqb z0 x00 && Byte.eqb z1 x00 && Byte.eqb t x03
      | _, _, _ => false
      end
  | _ => false
  end.

(** The bytes of [data] at the positions that are not escaped, in order. *)
Definition kept_bytes (data : list byte) : list byte :=
  map (fun i => nth i data x00)
      (filter (fun i => negb (escaped data i)) (seq 0 (List.length data))).

(** The input contains the triplet 0x00 0x00 0x03. *)
Definition has_triplet (data : list byte) : Prop :=
  exists pre post, data = pre ++ [x00; x00; x03] ++ post.

(** ** The marker locator, as the specification words it *)

(** Length of the run of 0x42 bytes at the head of a list. *)
Fixpoint run42 (l : list byte) : nat :=
  match l with
  | x :: rest => if Byte.eqb x x42 then S (run42 rest) else O
  | [] => O
  end.

(** Number of 0x42 bytes consumed by a scan that starts at index 3. *)
Definition marker_run (nal : list byte) : nat := run42 (skipn 3 nal).

(** The byte that follows the run is 0x69. *)
Definition marker_follows (nal : list byte) : bool :=
  match nth_error nal (3 + marker_run nal) with
  | Some x => Byte.eqb x x69
  | None => false
  end.

(** The bytes from just after the 0x69 marker to one byte before the end of
    the unit. *)
Definition candidate (nal : list byte) : list byte :=
  let start := (3 + marker_run nal + 1)%nat in
  firstn (List.length nal - 1 - start) (skipn start nal).

Definition located_payload (nal : list byte) : option (list byte) :=
  if (0 <? marker_run nal)%nat && marker_follows nal then
    let payload := stripEmulationBytes (candidate nal) in
    if (List.length payload <? 4)%nat then None else Some payload
  else None.

(** ** Tick counts *)

Definition sumZ (l : list Z) : Z := fold_right Z.add 0 l.

(** The cumulative tick count before sample [k]: the sum of the first [k]
    durations. *)
Definition ticks_before (durations : list Z) (k : nat) : Z :=
  sumZ (firstn k durations).

(** ** The timing path, box by box *)

(** The movie, track, media and media-header boxes are all found; [mdia] and
    [mdhd] are the last two. *)
Definition header_chain (b : buffer) (mdia mdhd : Box) : Prop :=
  exists moov trak,
    findBox b 0 (byteLength b) "moov" = Ok (Some moov)
    /\ findBox b (offset moov + 8) (offset moov + size moov) "trak" = Ok (Some trak)
    /\ findBox b (offset trak + 8) (offset trak + size trak) "mdia" = Ok (Some mdia)
    /\ findBox b (offset mdia + 8) (offset mdia + size mdia) "mdhd" = Ok (Some mdhd).



(** The time-to-sample box is found under [mdia]. *)
Definition stts_found (b : buffer) (mdia stts : Box) : Prop :=
  exists minf stbl,
    findBox b (offset mdia + 8) (offset mdia + size mdia) "minf" = Ok (Some minf)
    /\ findBox b (offset minf + 8) (offset minf + size minf) "stbl" = Ok (Some stbl)
    /\ findBox b (offset stbl + 8) (offset stbl + size stbl) "stts" = Ok (Some stts).

(** Lines 64-87 of [getTimescaleAndDurations]: what follows the reading of
    the timescale. *)
Definition durations_from (b : buffer) (mdia : Box) (timescale : Z)
    : result (option TrackTiming) :=
  minf <- findBox b (offset mdia + 8) (offset mdia + size mdia) "minf" ;;
  match minf with None => Ok (Some (mkTiming timescale [])) | Some minf =>
  stbl <- findBox b (offset minf + 8) (offset minf + size minf) "stbl" ;;
  match stbl with None => Ok (Some (mkTiming timescale [])) | Some stbl =>
  stts <- findBox b (offset stbl + 8) (offset stbl + size stbl) "stts" ;;
  match stts with None => Ok (Some (mkTiming timescale [])) | Some stts =>
  let sttsOffset := offset stts + 8 in
  entryCount <- getUint32 b (sttsOffset + 4) ;;
  durations <- stts_loop b (Z.to_nat entryCount) (sttsOffset + 8) [] ;;
  Ok (Some (mkTiming timescale durations))
  end end end.

(** The list [l] lies in the buffer at position [pos]. *)
Definition bytes_at (b : buffer) (pos : Z) (l : list byte) : Prop :=
  0 <= pos /\ firstn (List.length l) (skipn (Z.to_nat pos) b) = l.


Definition uint32 (n : Z) : Prop := 0 <= n < 4294967296.

(** ** The scan of the raw-media-data box from a cursor *)

Section ScanDefinitions.

Variables Message Obj : Type.

(** One iteration of the loop of [extractSeiMessages], with [continue_]
    standing for the rest of the loop. *)
Definition sei_step (b : buffer) (seiType : option (SeiType Message Obj))
    (cursor end_ : Z) (seiMessages : list Obj)
    (continue_ : Z -> list Obj -> result (list Obj)) : result (list Obj) :=
  if cursor + 4 <=? end_ then
    nalSize <- getUint32 b cursor ;;
    let cursor := cursor + 4 in
    if (nalSize <? 2) || (cursor + nalSize >? byteLength b) then
      continue_ (cursor + Z.max nalSize 0) seiMessages
    else
      byte0 <- getUint8 b cursor ;;
      let nalType := Z.land byte0 31 in
      payloadType <- getUint8 b (cursor + 1) ;;
      let seiMessages :=
        if (nalType =? 6) && (payloadType =? 5) then
          match decodeSei (slice b cursor (cursor + nalSize)) seiType with
          | Some decoded => seiMessages ++ [decoded]
          | None => seiMessages
          end
        else seiMessages in
      continue_ (cursor + nalSize) seiMessages
  else Ok seiMessages.

(** The loop of [extractSeiMessages] started at [cursor] with the messages
    collected so far. *)
Definition scan (b : buffer) (seiType : option (SeiType Message Obj))
    (cursor end_ : Z) (seiMessages : list Obj) : result (list Obj) :=
  sei_loop (S (Z.to_nat (end_ - cursor))) b seiType cursor end_ seiMessages.

End ScanDefinitions.

(** The classification of a unit by its first two bytes. *)
Definition qualifies (unit : list byte) : bool :=
  (Z.land (byteval (nth 0 unit x00)) 31 =? 6) && (byteval (nth 1 unit x00) =? 5).


(** ** The failures of [processSingleVideo] *)


Definition NoTelemetryError : exn := Error "No telemetry data found".



(** ** Buffers made of complete boxes *)

Definition encode_boxes (boxes : list (string * list byte)) : list byte :=
  flat_map (fun bx => box_bytes (fst bx) (snd bx)) boxes.

(** A four-character tag and a size that fits the 32-bit size field. *)
Definition well_formed_box (bx : string * list byte) : Prop :=
  String.length (fst bx) = 4%nat
  /\ uint32 (8 + Z.of_nat (List.length (snd bx))).

(** ** The Timestamp Builder in binary64 arithmetic

    The same loop with JavaScript numbers as IEEE 754 binary64 values, the
    arithmetic JavaScript performs: [time] is a binary64 value, [+=] is the
    binary64 addition and [/] the binary64 division.  An integer below 2^53
    converts exactly. *)




(** * Further models and properties *)

(** ** Looking a tag up in a list of complete boxes *)

(** The box that a scan starting at [pos] over the encoded [boxes] should
    return: the first one tagged [name], at the position where its header
    lies. *)
Fixpoint find_box (name : string) (boxes : list (string * list byte)) (pos : Z)
    : option Box :=
  match boxes with
  | [] => None
  | (tag, content) :: rest =>
      if String.eqb tag name
      then Some (mkBox pos (8 + Z.of_nat (List.length content)) tag)
      else find_box name rest (pos + (8 + Z.of_nat (List.length content)))
  end.

(** ** Length-prefixed units *)

(** Units laid out one after the other, each behind its 4-byte length. *)
Definition encode_units (units : list (list byte)) : list byte :=
  flat_map (fun u => unit_bytes (Z.of_nat (List.length u)) u) units.

Section UnitDecoding.

Variables Message Obj : Type.

(** What the scanner should collect from a list of units: the decoded form of
    each unit of at least 2 bytes that qualifies and decodes, in order. *)
Definition decode_units (seiType : option (SeiType Message Obj))
    (units : list (list byte)) : list Obj :=
  flat_map
    (fun u =>
       if (2 <=? List.length u)%nat && qualifies u then
         match decodeSei u seiType with
         | Some decoded => [decoded]
         | None => []
         end
       else [])
    units.

End UnitDecoding.

(** ** Emulation prevention, as a writer applies it

    The H.264 byte stream writer inserts a 0x03 byte whenever two zero bytes
    would be followed by a byte of value 3 or less.  [zeros] counts the zero
    bytes written since the last byte that was not zero. *)

Fixpoint escape_from (zeros : nat) (data : list byte) : list byte :=
  match data with
  | [] => []
  | x :: rest =>
      if (2 <=? zeros)%nat && (byteval x <=? 3) then
        x03 :: x :: escape_from (if Byte.eqb x x00 then 1%nat else 0%nat) rest
      else
        x :: escape_from (if Byte.eqb x x00 then S zeros else 0%nat) rest
  end.

Definition emulation_prevention (data : list byte) : list byte :=
  escape_from 0 data.

(** The stripper as a single pass that remembers whether each of the two
    preceding input bytes was zero. *)
Fixpoint strip_pass (z2 z1 : bool) (data : list byte) : list byte :=
  match data with
  | [] => []
  | x :: rest =>
      if z2 && z1 && Byte.eqb x x03
      then strip_pass z1 (Byte.eqb x x00) rest
      else x :: strip_pass z1 (Byte.eqb x x00) rest
  end.

(** Whether the last byte, and the last but one, of a list is zero. *)
Definition last_zero (pre : list byte) : bool :=
  match rev pre with
  | x :: _ => Byte.eqb x x00
  | [] => false
  end.

Definition last_but_one_zero (pre : list byte) : bool :=
  match rev pre with
  | _ :: y :: _ => Byte.eqb y x00
  | _ => false
  end.

(** A unit as the camera writes it: three leading bytes, a run of [k] bytes
    0x42, the 0x69 marker, the payload with emulation prevention applied, and
    one trailing byte. *)
Definition sei_unit_bytes (h0 h1 h2 : byte) (k : nat) (payload : list byte)
    (trailer : byte) : list byte :=
  [h0; h1; h2] ++ repeat x42 k ++ [x69] ++ emulation_prevention payload
  ++ [trailer].

(** ** A movie box with the whole timing path, for either header version *)




(** ** A time-to-sample table cut short *)

(** The complete file with the entry count of its table raised to 3 while
    one entry is present. *)
Definition file_stts_short : buffer :=
  box_bytes "moov"
    (box_bytes "trak"
       (box_bytes "mdia"
          (box_bytes "mdhd" (mdhd_content_v0 90000)
           ++ box_bytes "minf"
                (box_bytes "stbl"
                   (box_bytes "stts"
                      (be32 0 ++ be32 3 ++ be32 2 ++ be32 3000)))))).

(** ** Camera label from the file name: [detectCameraSource]

    File names are modelled by strings of 8-bit characters (code units below
    U+0100).  On such strings [toLowerCase] maps A-Z and the accented capitals
    U+00C0-U+00DE (the multiplication sign U+00D7 apart) to the character 32
    places further and leaves every other character as it is; [\s] holds the
    characters 9 to 13, 32 and 160; [\w] is [A-Za-z0-9_]. *)

Definition code (c : ascii) : nat := nat_of_ascii c.

Definition between (lo hi n : nat) : bool := (lo <=? n)%nat && (n <=? hi)%nat.

Definition toLowerCase_char (c : ascii) : ascii :=
  if between 65 90 (code c) || between 192 214 (code c) || between 216 222 (code c)
  then ascii_of_nat (code c + 32)
  else c.

Fixpoint string_map (f : ascii -> ascii) (s : string) : string :=
  match s with
  | EmptyString => EmptyString
  | String c rest => String (f c) (string_map f rest)
  end.

Definition toLowerCase (s : string) : string := string_map toLowerCase_char s.

(** [s.replace(/[-_]/g, ' ')] *)
Definition separator_to_space (c : ascii) : ascii :=
  if Ascii.eqb c "-" || Ascii.eqb c "_" then " "%char else c.

Definition replace_separators (s : string) : string :=
  string_map separator_to_space s.

Definition is_space (c : ascii) : bool :=
  between 9 13 (code c) || (code c =? 32)%nat || (code c =? 160)%nat.

Definition is_word (c : ascii) : bool :=
  between 48 57 (code c) || between 65 90 (code c) || between 97 122 (code c)
  || (code c =? 95)%nat.

(** The three constructs the patterns are made of: a literal character,
    [\s*] and [\b]. *)
Inductive atom : Type :=
| Chr (c : ascii)
| Spaces
| Boundary.

Definition is_word_at (c : option ascii) : bool :=
  match c with
  | Some x => is_word x
  | None => false
  end.

Definition first_char (s : string) : option ascii :=
  match s with
  | String x _ => Some x
  | EmptyString => None
  end.

(** The pattern matches a prefix of [s]; [prev] is the character before [s]
    in the string searched, if any.  For [\s*] every number of space
    characters is tried. *)
Fixpoint match_here (atoms : list atom) (prev : option ascii) (s : string)
    {struct atoms} : bool :=
  match atoms with
  | [] => true
  | Chr c :: rest =>
      match s with
      | String x r => Ascii.eqb x c && match_here rest (Some x) r
      | EmptyString => false
      end
  | Boundary :: rest =>
      xorb (is_word_at prev) (is_word_at (first_char s))
      && match_here rest prev s
  | Spaces :: rest =>
      (fix spaces (prev : option ascii) (s : string) {struct s} : bool :=
         match_here rest prev s
         || match s with
            | String x r => is_space x && spaces (Some x) r
            | EmptyString => false
            end) prev s
  end.

(** The pattern matches somewhere in [s]. *)
Fixpoint search (atoms : list atom) (prev : option ascii) (s : string)
    {struct s} : bool :=
  match_here atoms prev s
  || match s with
     | String x r => search atoms (Some x) r
     | EmptyString => false
     end.

(** [pattern.test(name)] *)
Definition test (atoms : list atom) (s : string) : bool := search atoms None s.

Definition lit (s : string) : list atom := map Chr (list_ascii_of_string s).

Definition patterns : list (list atom * string) :=
  [ (lit "left" ++ [Spaces] ++ lit "pillar", "Left Pillar"%string);
    (lit "right" ++ [Spaces] ++ lit "pillar", "Right Pillar"%string);
    (lit "left" ++ [Spaces] ++ lit "repeater", "Left Repeater"%string);
    (lit "right" ++ [Spaces] ++ lit "repeater", "Right Repeater"%string);
    ([Boundary] ++ lit "left" ++ [Boundary], "Left"%string);
    ([Boundary] ++ lit "right" ++ [Boundary], "Right"%string);
    ([Boundary] ++ lit "front" ++ [Boundary], "Front"%string);
    ([Boundary] ++ lit "back" ++ [Boundary], "Back"%string);
    ([Boundary] ++ lit "rear" ++ [Boundary], "Rear"%string) ].

(** The loop [for (const { pattern, label } of patterns)]. *)
Fixpoint first_label (ps : list (list atom * string)) (s : string)
    : option string :=
  match ps with
  | [] => None
  | (pattern, label) :: rest =>
      if test pattern s then Some label else first_label rest s
  end.

Definition detectCameraSource (filename : string) : option string :=
  let name := replace_separators (toLowerCase filename) in
  first_label patterns name.

(** [detectCameraSource(file.name) || 'Unknown'], the label of the result of
    [processSingleVideo]. *)
Definition videoLabel (f : File) : string :=
  match detectCameraSource (name f) with
  | Some label => label
  | None => "Unknown"%string
  end.

(** The normalisation applied before matching. *)
Definition normalize (s : string) : string :=
  replace_separators (toLowerCase s).

Fixpoint all_chars (p : ascii -> bool) (s : string) : bool :=
  match s with
  | EmptyString => true
  | String c rest => p c && all_chars p rest
  end.

Fixpoint occurs (c : ascii) (s : string) : bool :=
  match s with
  | EmptyString => false
  | String x rest => Ascii.eqb x c || occurs c rest
  end.

(** The character before the end of [pre], or [prev] when [pre] is empty. *)
Fixpoint last_char (pre : string) (prev : option ascii) : option ascii :=
  match pre with
  | EmptyString => prev
  | String x rest => last_char rest (Some x)
  end.

(** A digit, a hyphen or an underscore: the characters of the date and time
    part of a clip name. *)
Definition stamp_char (c : ascii) : bool :=
  between 48 57 (code c) || Ascii.eqb c "-" || Ascii.eqb c "_".

Definition digit_or_space (c : ascii) : bool :=
  between 48 57 (code c) || Ascii.eqb c " ".

(** A hyphen, an underscore or a space character. *)
Definition gap_char (c : ascii) : bool :=
  Ascii.eqb c "-" || Ascii.eqb c "_" || is_space c.

(** [w] occurs in [s] as a run of consecutive characters. *)
Fixpoint contains (w s : string) : bool :=
  String.prefix w s
  || match s with
     | String _ rest => contains w rest
     | EmptyString => false
     end.

(** * Properties *)

Unset Implicit Arguments.

(** ** The accessors *)

Lemma byteval_range (x : byte) : 0 <= byteval x < 256.
Proof.
  unfold byteval. pose proof (Byte.to_N_bounded x) as H.
  split; [apply N2Z.is_nonneg|].
  apply N.le_lteq in H. lia.
Qed.

Lemma rawByte_range (b : buffer) (i : Z) : 0 <= rawByte b i < 256.
Proof. apply byteval_range. Qed.

Lemma getUint8_Ok (b : buffer) (off v : Z) :
  getUint8 b off = Ok v ->
  0 <= off /\ off + 1 <= byteLength b /\ v = rawByte b off /\ 0 <= v < 256.
Proof.
  unfold getUint8.
  destruct (0 <=? off) eqn:H0; destruct (off + 1 <=? byteLength b) eqn:H1;
    simpl; intros H; inversion H; subst.
  pose proof (rawByte_range b off). repeat split; lia.
Qed.

Lemma getUint32_Ok (b : buffer) (off v : Z) :
  getUint32 b off = Ok v ->
  0 <= off /\ off + 4 <= byteLength b /\ 0 <= v < 4294967296.
Proof.
  unfold getUint32.
  destruct (0 <=? off) eqn:H0; destruct (off + 4 <=? byteLength b) eqn:H1;
    simpl; intros H; inversion H; subst.
  pose proof (rawByte_range b off). pose proof (rawByte_range b (off + 1)).
  pose proof (rawByte_range b (off + 2)). pose proof (rawByte_range b (off + 3)).
  repeat split; lia.
Qed.

Lemma getUint8_in_range (b : buffer) (off : Z) :
  0 <= off -> off + 1 <= byteLength b -> getUint8 b off = Ok (rawByte b off).
Proof.
  intros H0 H1. unfold getUint8.
  destruct (0 <=? off) eqn:E0; destruct (off + 1 <=? byteLength b) eqn:E1;
    simpl; try reflexivity; lia.
Qed.

Lemma getUint8_out_of_range (b : buffer) (off : Z) :
  off < 0 \/ byteLength b < off + 1 -> getUint8 b off = Throw RangeError.
Proof.
  intros H. unfold getUint8.
  destruct (0 <=? off) eqn:E0; destruct (off + 1 <=? byteLength b) eqn:E1;
    simpl; try reflexivity; lia.
Qed.

Lemma getUint32_out_of_range (b : buffer) (off : Z) :
  off < 0 \/ byteLength b < off + 4 -> getUint32 b off = Throw RangeError.
Proof.
  intros H. unfold getUint32.
  destruct (0 <=? off) eqn:E0; destruct (off + 4 <=? byteLength b) eqn:E1;
    simpl; try reflexivity; lia.
Qed.

Lemma getUint32_in_range (b : buffer) (off : Z) :
  0 <= off -> off + 4 <= byteLength b -> exists v, getUint32 b off = Ok v.
Proof.
  intros H0 H1. unfold getUint32.
  destruct (0 <=? off) eqn:E0; destruct (off + 4 <=? byteLength b) eqn:E1;
    simpl; try lia. eexists; reflexivity.
Qed.

Lemma getUint8_raises (b : buffer) (off : Z) :
  raises_only_RangeError (getUint8 b off).
Proof. unfold getUint8. destruct (_ && _); simpl; auto. Qed.

Lemma getUint32_raises (b : buffer) (off : Z) :
  raises_only_RangeError (getUint32 b off).
Proof. unfold getUint32. destruct (_ && _); simpl; auto. Qed.

Lemma bind_raises {A B : Type} (r : result A) (k : A -> result B) :
  raises_only_RangeError r ->
  (forall a, r = Ok a -> raises_only_RangeError (k a)) ->
  raises_only_RangeError (r' <- r ;; k r').
Proof.
  destruct r; simpl; intros H K; auto.
Qed.

Lemma getString_loop_raises (b : buffer) (off : Z) (n : nat) :
  forall i str, raises_only_RangeError (getString_loop b off n i str).
Proof.
  induction n as [|n IH]; intros i str; simpl; [exact I|].
  apply bind_raises; [apply getUint8_raises|]. intros; apply IH.
Qed.

Lemma getString_raises (b : buffer) (off len : Z) :
  raises_only_RangeError (getString b off len).
Proof. apply getString_loop_raises. Qed.

(** [getString(off, 4)] written out. *)
Lemma getString_4 (b : buffer) (off : Z) :
  getString b off 4 =
  (c0 <- getUint8 b (off + 0) ;;
   c1 <- getUint8 b (off + 1) ;;
   c2 <- getUint8 b (off + 2) ;;
   c3 <- getUint8 b (off + 3) ;;
   Ok (fromCharCode c0 ++ fromCharCode c1 ++ fromCharCode c2 ++ fromCharCode c3)%string).
Proof.
  unfold getString. change (Z.to_nat 4) with 4%nat. simpl.
  destruct (getUint8 b (off + 0)); reflexivity.
Qed.

Lemma getString_4_Ok (b : buffer) (off : Z) (s : string) :
  getString b off 4 = Ok s -> 0 <= off /\ off + 4 <= byteLength b.
Proof.
  rewrite getString_4.
  destruct (getUint8 b (off + 0)) eqn:E0; simpl; try discriminate.
  destruct (getUint8 b (off + 1)) eqn:E1; simpl; try discriminate.
  destruct (getUint8 b (off + 2)) eqn:E2; simpl; try discriminate.
  destruct (getUint8 b (off + 3)) eqn:E3; simpl; try discriminate.
  intros _. apply getUint8_Ok in E0, E3. lia.
Qed.

Lemma getString_4_out_of_range (b : buffer) (off : Z) :
  off < 0 \/ byteLength b < off + 4 -> getString b off 4 = Throw RangeError.
Proof.
  intros H.
  pose proof (getString_raises b off 4) as R.
  destruct (getString b off 4) as [s| e |] eqn:E; simpl in R.
  - apply getString_4_Ok in E. lia.
  - subst; reflexivity.
  - contradiction.
Qed.

(** ** The loop of [findBox] *)

Lemma findBox_loop_step (fuel : nat) (b : buffer) (off end_ : Z) (name : string) :
  findBox_loop (S fuel) b off end_ name =
  findBox_step b off end_ name (fun o => findBox_loop fuel b o end_ name).
Proof. reflexivity. Qed.

(** Any two budgets above [end - offset] give the same outcome. *)
Lemma findBox_loop_fuel (b : buffer) (end_ : Z) (name : string) :
  forall f1 f2 off,
    (Z.to_nat (end_ - off) < f1)%nat -> (Z.to_nat (end_ - off) < f2)%nat ->
    findBox_loop f1 b off end_ name = findBox_loop f2 b off end_ name.
Proof.
  induction f1 as [|f1 IH]; intros f2 off H1 H2; [lia|].
  destruct f2 as [|f2]; [lia|].
  rewrite !findBox_loop_step. unfold findBox_step.
  destruct (off <? end_) eqn:Hlt; [|reflexivity].
  apply Z.ltb_lt in Hlt.
  destruct (getUint32 b off) as [sz| |] eqn:Hsz; simpl; try reflexivity.
  destruct (getString b (off + 4) 4) as [ty| |]; simpl; try reflexivity.
  apply getUint32_Ok in Hsz.
  destruct (sz =? 0) eqn:E0; [reflexivity|].
  destruct (sz =? 1) eqn:E1; [apply IH; lia|].
  destruct (String.eqb ty name); [reflexivity|].
  apply Z.eqb_neq in E0, E1. apply IH; lia.
Qed.

(** The loop equation of [findBox]: one iteration, then [findBox] again from
    the new offset. *)
Lemma findBox_eq (b : buffer) (off end_ : Z) (name : string) :
  findBox b off end_ name =
  findBox_step b off end_ name (fun o => findBox b o end_ name).
Proof.
  unfold findBox at 1. rewrite findBox_loop_step. unfold findBox_step.
  destruct (off <? end_) eqn:Hlt; [|reflexivity].
  apply Z.ltb_lt in Hlt.
  destruct (getUint32 b off) as [sz| |] eqn:Hsz; simpl; try reflexivity.
  destruct (getString b (off + 4) 4) as [ty| |]; simpl; try reflexivity.
  apply getUint32_Ok in Hsz.
  destruct (sz =? 0) eqn:E0; [reflexivity|].
  destruct (sz =? 1) eqn:E1; [apply findBox_loop_fuel; lia|].
  destruct (String.eqb ty name); [reflexivity|].
  apply Z.eqb_neq in E0, E1. apply findBox_loop_fuel; lia.
Qed.

Lemma findBox_loop_raises (b : buffer) (end_ : Z) (name : string) :
  forall fuel off,
    (Z.to_nat (end_ - off) < fuel)%nat ->
    raises_only_RangeError (findBox_loop fuel b off end_ name).
Proof.
  induction fuel as [|fuel IH]; intros off H; [lia|].
  rewrite findBox_loop_step. unfold findBox_step.
  destruct (off <? end_) eqn:Hlt; [|exact I].
  apply Z.ltb_lt in Hlt.
  apply bind_raises; [apply getUint32_raises|]. intros sz Hsz.
  apply bind_raises; [apply getString_raises|]. intros ty _.
  apply getUint32_Ok in Hsz.
  destruct (sz =? 0) eqn:E0; [exact I|].
  destruct (sz =? 1) eqn:E1; [apply IH; lia|].
  destruct (String.eqb ty name); [exact I|].
  apply Z.eqb_neq in E0, E1. apply IH; lia.
Qed.

(** [findBox] always ends: with a box, with not-found, or with
    [RangeError]. *)
Lemma findBox_total (b : buffer) (start end_ : Z) (name : string) :
  raises_only_RangeError (findBox b start end_ name).
Proof. apply findBox_loop_raises. lia. Qed.

Lemma findBox_past_end (b : buffer) (off end_ : Z) (name : string) :
  end_ <= off -> findBox b off end_ name = Ok None.
Proof.
  intros H. rewrite findBox_eq. unfold findBox_step.
  destruct (off <? end_) eqn:E; [apply Z.ltb_lt in E; lia | reflexivity].
Qed.

(** ** Which bytes a read depends on *)

Lemma agree_upto_length (n k : Z) (b b' : buffer) :
  agree_upto n b b' -> k <= n -> (k <= byteLength b <-> k <= byteLength b').
Proof.
  unfold agree_upto, byteLength. intros H Hk.
  apply (f_equal (@List.length byte)) in H. rewrite !length_firstn in H. lia.
Qed.

Lemma agree_upto_rawByte (n i : Z) (b b' : buffer) :
  agree_upto n b b' -> 0 <= i < n -> rawByte b i = rawByte b' i.
Proof.
  unfold agree_upto, rawByte. intros H Hi. f_equal.
  assert (E : forall l : buffer,
             nth (Z.to_nat i) l x00 = nth (Z.to_nat i) (firstn (Z.to_nat n) l) x00).
  { intros l. rewrite nth_firstn.
    destruct (Z.to_nat i <? Z.to_nat n)%nat eqn:E; [reflexivity|].
    apply Nat.ltb_ge in E. lia. }
  rewrite (E b), (E b'), H. reflexivity.
Qed.

Lemma agree_upto_getUint8 (n off : Z) (b b' : buffer) :
  agree_upto n b b' -> off + 1 <= n -> getUint8 b off = getUint8 b' off.
Proof.
  intros H Hn. unfold getUint8.
  pose proof (agree_upto_length _ _ _ _ H Hn) as L.
  destruct (0 <=? off) eqn:E0; simpl; [|reflexivity].
  apply Z.leb_le in E0.
  destruct (off + 1 <=? byteLength b) eqn:E1;
    destruct (off + 1 <=? byteLength b') eqn:E2;
    try (apply Z.leb_le in E1); try (apply Z.leb_le in E2);
    try (apply Z.leb_gt in E1); try (apply Z.leb_gt in E2); try lia.
  - rewrite (agree_upto_rawByte _ (off) _ _ H); [reflexivity | lia].
  - reflexivity.
Qed.

Lemma agree_upto_getUint32 (n off : Z) (b b' : buffer) :
  agree_upto n b b' -> off + 4 <= n -> getUint32 b off = getUint32 b' off.
Proof.
  intros H Hn. unfold getUint32.
  pose proof (agree_upto_length _ _ _ _ H Hn) as L.
  destruct (0 <=? off) eqn:E0; simpl; [|reflexivity].
  apply Z.leb_le in E0.
  destruct (off + 4 <=? byteLength b) eqn:E1;
    destruct (off + 4 <=? byteLength b') eqn:E2;
    try (apply Z.leb_le in E1); try (apply Z.leb_le in E2);
    try (apply Z.leb_gt in E1); try (apply Z.leb_gt in E2); try lia.
  - rewrite (agree_upto_rawByte _ (off) _ _ H), (agree_upto_rawByte _ (off + 1) _ _ H),
      (agree_upto_rawByte _ (off + 2) _ _ H), (agree_upto_rawByte _ (off + 3) _ _ H);
      [reflexivity | lia ..].
  - reflexivity.
Qed.

Lemma agree_upto_getString (n off : Z) (b b' : buffer) :
  agree_upto n b b' -> off + 4 <= n -> getString b off 4 = getString b' off 4.
Proof.
  intros H Hn. rewrite !getString_4.
  rewrite (agree_upto_getUint8 _ (off + 0) _ _ H) by lia.
  rewrite (agree_upto_getUint8 _ (off + 1) _ _ H) by lia.
  rewrite (agree_upto_getUint8 _ (off + 2) _ _ H) by lia.
  rewrite (agree_upto_getUint8 _ (off + 3) _ _ H) by lia.
  reflexivity.
Qed.

(** [findBox] reads no byte at position [end + 7] or beyond. *)
Lemma findBox_loop_agree_upto (b b' : buffer) (end_ : Z) (name : string) :
  agree_upto (end_ + 7) b b' ->
  forall fuel off,
    findBox_loop fuel b off end_ name = findBox_loop fuel b' off end_ name.
Proof.
  intros H. induction fuel as [|fuel IH]; intros off; [reflexivity|].
  rewrite !findBox_loop_step. unfold findBox_step.
  destruct (off <? end_) eqn:Hlt; [|reflexivity].
  apply Z.ltb_lt in Hlt.
  rewrite (agree_upto_getUint32 _ (off) _ _ H) by lia.
  rewrite (agree_upto_getString _ (off + 4) _ _ H) by lia.
  destruct (getUint32 b' off); simpl; try reflexivity.
  destruct (getString b' (off + 4) 4); simpl; try reflexivity.
  rewrite !IH. reflexivity.
Qed.

(** A box that is found lies at or after the position the scan started
    from. *)
Lemma findBox_loop_found_offset (b : buffer) (end_ : Z) (name : string) (bx : Box) :
  forall fuel off,
    findBox_loop fuel b off end_ name = Ok (Some bx) ->
    off <= offset bx /\ offset bx < end_.
Proof.
  induction fuel as [|fuel IH]; intros off; [discriminate|].
  rewrite findBox_loop_step. unfold findBox_step.
  destruct (off <? end_) eqn:Hlt; [|discriminate].
  apply Z.ltb_lt in Hlt.
  destruct (getUint32 b off) as [sz| |] eqn:Hsz; simpl; try discriminate.
  destruct (getString b (off + 4) 4) as [ty| |]; simpl; try discriminate.
  apply getUint32_Ok in Hsz.
  destruct (sz =? 0); [discriminate|].
  destruct (sz =? 1); [intros E; apply IH in E; lia|].
  destruct (String.eqb ty name).
  - intros E; inversion E; subst; simpl; lia.
  - intros E; apply IH in E; lia.
Qed.

(** The bytes after the header of the box that is returned play no part in
    the result. *)
Lemma findBox_loop_found_agree (b b' : buffer) (end_ : Z) (name : string) (bx : Box) :
  agree_upto (offset bx + 8) b b' ->
  forall fuel off,
    findBox_loop fuel b off end_ name = Ok (Some bx) ->
    findBox_loop fuel b' off end_ name = Ok (Some bx).
Proof.
  intros H. induction fuel as [|fuel IH]; intros off E; [discriminate|].
  pose proof (findBox_loop_found_offset _ _ _ _ _ _ E) as Hoff.
  rewrite findBox_loop_step in E |- *. unfold findBox_step in *.
  destruct (off <? end_) eqn:Hlt; [|discriminate].
  rewrite <- (agree_upto_getUint32 _ (off) _ _ H) by lia.
  rewrite <- (agree_upto_getString _ (off + 4) _ _ H) by lia.
  destruct (getUint32 b off) as [sz| |]; simpl in *; try discriminate.
  destruct (getString b (off + 4) 4) as [ty| |]; simpl in *; try discriminate.
  destruct (sz =? 0); [discriminate|].
  destruct (sz =? 1); [apply IH; exact E|].
  destruct (String.eqb ty name); [exact E | apply IH; exact E].
Qed.

Lemma getString_4_in_range (b : buffer) (off : Z) :
  0 <= off -> off + 4 <= byteLength b -> exists s, getString b off 4 = Ok s.
Proof.
  intros H0 H1. rewrite getString_4.
  rewrite !getUint8_in_range by lia. simpl. eexists; reflexivity.
Qed.

Lemma agree_from_rawByte (p i : Z) (b b' : buffer) :
  agree_from p b b' -> 0 <= p <= i -> rawByte b i = rawByte b' i.
Proof.
  unfold agree_from, rawByte. intros [_ H] Hi. f_equal.
  replace (Z.to_nat i) with (Z.to_nat p + Z.to_nat (i - p))%nat by lia.
  rewrite <- !nth_skipn, H. reflexivity.
Qed.

Lemma agree_from_byteLength (p : Z) (b b' : buffer) :
  agree_from p b b' -> byteLength b = byteLength b'.
Proof. unfold agree_from, byteLength. intros [H _]. lia. Qed.

Lemma agree_from_getUint8 (p : Z) (b b' : buffer) (off : Z) :
  agree_from p b b' -> 0 <= p <= off -> getUint8 b off = getUint8 b' off.
Proof.
  intros H Hp. unfold getUint8.
  rewrite (agree_from_byteLength _ _ _ H), (agree_from_rawByte _ (off) _ _ H) by lia.
  reflexivity.
Qed.

Lemma agree_from_getUint32 (p : Z) (b b' : buffer) (off : Z) :
  agree_from p b b' -> 0 <= p <= off -> getUint32 b off = getUint32 b' off.
Proof.
  intros H Hp. unfold getUint32.
  rewrite (agree_from_byteLength _ _ _ H), (agree_from_rawByte _ (off) _ _ H),
    (agree_from_rawByte _ (off + 1) _ _ H), (agree_from_rawByte _ (off + 2) _ _ H),
    (agree_from_rawByte _ (off + 3) _ _ H) by lia.
  reflexivity.
Qed.

Lemma agree_from_getString (p : Z) (b b' : buffer) (off : Z) :
  agree_from p b b' -> 0 <= p <= off -> getString b off 4 = getString b' off 4.
Proof.
  intros H Hp. rewrite !getString_4.
  rewrite (agree_from_getUint8 _ _ _ (off + 0) H) by lia.
  rewrite (agree_from_getUint8 _ _ _ (off + 1) H) by lia.
  rewrite (agree_from_getUint8 _ _ _ (off + 2) H) by lia.
  rewrite (agree_from_getUint8 _ _ _ (off + 3) H) by lia.
  reflexivity.
Qed.

(** A scan that starts at [off] reads no byte below [off]. *)
Lemma findBox_loop_agree_from (p : Z) (b b' : buffer) (end_ : Z) (name : string) :
  agree_from p b b' -> 0 <= p ->
  forall fuel off,
    p <= off ->
    findBox_loop fuel b off end_ name = findBox_loop fuel b' off end_ name.
Proof.
  intros H Hp. induction fuel as [|fuel IH]; intros off Hoff; [reflexivity|].
  rewrite !findBox_loop_step. unfold findBox_step.
  destruct (off <? end_) eqn:Hlt; [|reflexivity].
  rewrite <- (agree_from_getUint32 _ _ _ (off) H) by lia.
  rewrite <- (agree_from_getString _ _ _ (off + 4) H) by lia.
  destruct (getUint32 b off) as [sz| |] eqn:Hsz; simpl; try reflexivity.
  destruct (getString b (off + 4) 4); simpl; try reflexivity.
  apply getUint32_Ok in Hsz.
  rewrite !IH by lia. reflexivity.
Qed.

(** A scan that passes through a position continues as the scan started
    there. *)
Lemma findBox_reaches (b : buffer) (end_ : Z) (name : string) (start off : Z) :
  reaches b end_ name start off ->
  findBox b start end_ name = findBox b off end_ name.
Proof.
  induction 1 as [off | off off' ty Hlt Hsz Hty _ IH
                  | off off' sz ty Hlt Hsz H0 H1 Hty Hne _ IH].
  - reflexivity.
  - rewrite <- IH, findBox_eq. unfold findBox_step.
    apply Z.ltb_lt in Hlt. rewrite Hlt, Hsz, Hty. reflexivity.
  - rewrite <- IH, findBox_eq. unfold findBox_step.
    apply Z.ltb_lt in Hlt. rewrite Hlt, Hsz, Hty. cbn [bind].
    apply Z.eqb_neq in H0, H1. apply String.eqb_neq in Hne.
    rewrite H0, H1, Hne. reflexivity.
Qed.

(** ** C8: the cases of one [findBox] iteration *)

(** C8.  At a scan position [off] inside the region whose 8-byte header can
    be read: a declared size of 0 ends the scan with not-found whatever the
    tag and the rest of the buffer are; a declared size of 1 moves the scan
    to [off + 16] whatever the tag is, and neither the tag nor the 8 bytes of
    the extended size field influence the result; otherwise a box whose tag
    equals the name is returned at once, and no byte after its header
    influences the result, here and for a scan that reached it from an
    earlier start; a box with another tag moves the scan forward by its
    size.  A scan of the region that passes through [off] from an earlier
    start ends as the scan from [off] does. *)
Theorem findBox_size_cases (b : buffer) (off end_ : Z) (name : string) (sz : Z) (ty : string) :
  off < end_ ->
  getUint32 b off = Ok sz ->
  getString b (off + 4) 4 = Ok ty ->
  (sz = 0 -> findBox b off end_ name = Ok None)
  /\ (sz = 1 ->
      findBox b off end_ name = findBox b (off + 16) end_ name
      /\ forall b', agree_upto (off + 4) b b' -> agree_from (off + 16) b b' ->
                    findBox b' off end_ name = findBox b off end_ name)
  /\ (sz <> 0 -> sz <> 1 -> ty = name ->
      findBox b off end_ name = Ok (Some (mkBox off sz ty))
      /\ forall b', agree_upto (off + 8) b b' ->
                    findBox b' off end_ name = Ok (Some (mkBox off sz ty)))
  /\ (sz <> 0 -> sz <> 1 -> ty <> name ->
      findBox b off end_ name = findBox b (off + sz) end_ name)
  /\ (forall start bx,
      findBox b start end_ name = Ok (Some bx) ->
      forall b', agree_upto (offset bx + 8) b b' ->
                 findBox b' start end_ name = Ok (Some bx))
  /\ (forall start,
      reaches b end_ name start off ->
      findBox b start end_ name = findBox b off end_ name).
Proof.
  intros Hlt Hsz Hty.
  assert (Hstep : forall b0 : buffer,
             getUint32 b0 off = Ok sz -> forall ty0, getString b0 (off + 4) 4 = Ok ty0 ->
             findBox b0 off end_ name =
             if sz =? 0 then Ok None
             else if sz =? 1 then findBox b0 (off + 16) end_ name
             else if String.eqb ty0 name then Ok (Some (mkBox off sz ty0))
             else findBox b0 (off + sz) end_ name).
  { intros b0 H1 ty0 H2. rewrite findBox_eq. unfold findBox_step.
    apply Z.ltb_lt in Hlt. rewrite Hlt, H1, H2. reflexivity. }
  pose proof (Hstep b Hsz ty Hty) as E.
  split; [|split; [|split; [|split; [|split]]]];
    [| | | | |intros start; apply findBox_reaches].
  - intros ->. exact E.
  - intros ->. split; [exact E|]. intros b' Hpre Hsuf.
    pose proof (getUint32_Ok _ _ _ Hsz) as R.
    pose proof (getString_4_Ok _ _ _ Hty) as R'.
    assert (Hsz' : getUint32 b' off = Ok 1).
    { rewrite <- (agree_upto_getUint32 _ off _ _ Hpre) by lia. exact Hsz. }
    destruct (getString_4_in_range b' (off + 4)) as [ty' Hty'].
    { lia. } { rewrite <- (agree_from_byteLength _ _ _ Hsuf). lia. }
    rewrite (Hstep b' Hsz' ty' Hty'), E. simpl.
    symmetry. apply findBox_loop_agree_from with (p := off + 16); [exact Hsuf | lia | lia].
  - intros H0 H1 ->. split.
    { rewrite E. apply Z.eqb_neq in H0, H1.
      rewrite H0, H1, String.eqb_refl. reflexivity. }
    intros b' Hpre.
    rewrite (Hstep b') with (ty0 := name).
    + apply Z.eqb_neq in H0, H1. rewrite H0, H1, String.eqb_refl. reflexivity.
    + rewrite <- (agree_upto_getUint32 _ off _ _ Hpre) by lia. exact Hsz.
    + rewrite <- (agree_upto_getString _ (off + 4) _ _ Hpre) by lia. exact Hty.
  - intros H0 H1 Hne. rewrite E.
    apply Z.eqb_neq in H0, H1. apply String.eqb_neq in Hne.
    rewrite H0, H1, Hne. reflexivity.
  - intros start bx Hfound b' Hpre.
    unfold findBox in *. eapply findBox_loop_found_agree; eassumption.
Qed.

(** Witness of C8 on the complete file: the movie box is the first box. *)
Lemma findBox_size_cases_witness :
  findBox file_ok 0 (byteLength file_ok) "moov" = Ok (Some (mkBox 0 96 "moov")).
Proof.
  assert (H1 : 0 < byteLength file_ok) by reflexivity.
  assert (H2 : getUint32 file_ok 0 = Ok 96) by reflexivity.
  assert (H3 : getString file_ok (0 + 4) 4 = Ok "moov"%string) by reflexivity.
  destruct (findBox_size_cases file_ok 0 (byteLength file_ok) "moov" 96 "moov"
              H1 H2 H3) as (_ & _ & H & _).
  destruct H as [E _]; [discriminate | discriminate | reflexivity | exact E].
Defined.

(** A terminator hides the matching box behind it; a box of declared size 1
    is passed over together with its extended size field, and the box found
    is the one 16 bytes later. *)
Example findBox_terminator :
  findBox terminated_region 0 (byteLength terminated_region) "moov" = Ok None.
Proof. reflexivity. Qed.

Example findBox_extended_size :
  findBox extended_region 0 (byteLength extended_region) "moov"
  = Ok (Some (mkBox 16 8 "moov")).
Proof. reflexivity. Qed.

(** ** C1: what bounds the reads *)

Lemma push_times_app (n : nat) (x : Z) (l : list Z) :
  push_times n x l = l ++ repeat x n.
Proof.
  revert l. induction n as [|n IH]; intros l; simpl.
  - rewrite app_nil_r. reflexivity.
  - rewrite IH, <- app_assoc. reflexivity.
Qed.

Lemma stts_loop_raises (b : buffer) (n : nat) :
  forall pos ds, raises_only_RangeError (stts_loop b n pos ds).
Proof.
  induction n as [|n IH]; intros pos ds; simpl; [exact I|].
  apply bind_raises; [apply getUint32_raises|]. intros c _.
  apply bind_raises; [apply getUint32_raises|]. intros d _.
  apply IH.
Qed.

Ltac raises_leaf :=
  first
    [ apply findBox_total | apply getUint32_raises | apply getUint8_raises
    | apply stts_loop_raises
    | match goal with
      | |- raises_only_RangeError (if ?c then _ else _) =>
          destruct c; apply getUint32_raises
      end ].

Ltac raises_step :=
  match goal with
  | |- raises_only_RangeError (Ok _) => exact I
  | |- raises_only_RangeError (bind _ _) =>
      apply bind_raises; [raises_leaf | intros ? _]
  | |- raises_only_RangeError (match ?x with Some _ => _ | None => _ end) =>
      destruct x
  end.

Lemma getTimescaleAndDurations_raises (b : buffer) :
  raises_only_RangeError (getTimescaleAndDurations b).
Proof.
  unfold getTimescaleAndDurations. repeat raises_step.
Qed.

(** C1, as the code has it.  Every read goes through a [DataView] accessor,
    which checks the position against the buffer length: a read succeeds only
    inside the buffer and raises [RangeError] otherwise.  [findBox] itself
    tests only [offset < end] before it reads the 8 bytes of a header, so its
    result depends on the bytes below [end + 7], not only on those below
    [end]; when the header at a scan position is not wholly inside the buffer
    the scan raises [RangeError], and [getTimescaleAndDurations] passes the
    exception on.  No other exception arises and the scan always ends. *)
Theorem reads_checked_by_accessors (b : buffer) (start end_ : Z) (name : string) :
  (forall off v, getUint32 b off = Ok v -> 0 <= off /\ off + 4 <= byteLength b)
  /\ (forall off v, getUint8 b off = Ok v -> 0 <= off /\ off + 1 <= byteLength b)
  /\ (forall off, off < 0 \/ byteLength b < off + 4 ->
                  getUint32 b off = Throw RangeError)
  /\ (forall off, off < 0 \/ byteLength b < off + 1 ->
                  getUint8 b off = Throw RangeError)
  /\ (forall b', agree_upto (end_ + 7) b b' ->
                 findBox b' start end_ name = findBox b start end_ name)
  /\ (start < end_ -> start < 0 \/ byteLength b < start + 8 ->
      findBox b start end_ name = Throw RangeError)
  /\ raises_only_RangeError (findBox b start end_ name)
  /\ raises_only_RangeError (getTimescaleAndDurations b)
  /\ (forall e, findBox b 0 (byteLength b) "moov" = Throw e ->
                getTimescaleAndDurations b = Throw e).
Proof.
  split; [|split; [|split; [|split; [|split; [|split; [|split; [|split]]]]]]].
  - intros off v H. apply getUint32_Ok in H. lia.
  - intros off v H. apply getUint8_Ok in H. lia.
  - apply getUint32_out_of_range.
  - apply getUint8_out_of_range.
  - intros b' H. unfold findBox. symmetry. apply findBox_loop_agree_upto. exact H.
  - intros Hlt Hout. rewrite findBox_eq. unfold findBox_step.
    apply Z.ltb_lt in Hlt. rewrite Hlt.
    destruct (getUint32 b start) as [sz|e|] eqn:Hsz; simpl.
    + apply getUint32_Ok in Hsz.
      rewrite getString_4_out_of_range by lia. reflexivity.
    + pose proof (getUint32_raises b start) as R. rewrite Hsz in R.
      simpl in R. subst e. reflexivity.
    + pose proof (getUint32_raises b start) as R. rewrite Hsz in R.
      contradiction.
  - apply findBox_total.
  - apply getTimescaleAndDurations_raises.
  - intros e H. unfold getTimescaleAndDurations. rewrite H. reflexivity.
Qed.

(** The four-byte buffer: the scan position 0 is inside the region, its
    header is not inside the buffer. *)
Lemma reads_checked_by_accessors_witness :
  findBox truncated4 0 4 "moov" = Throw RangeError
  /\ getTimescaleAndDurations truncated4 = Throw RangeError.
Proof.
  destruct (reads_checked_by_accessors truncated4 0 4 "moov")
    as (_ & _ & _ & _ & _ & H & _ & _ & P).
  assert (E : findBox truncated4 0 4 "moov" = Throw RangeError).
  { apply H; [reflexivity | right; reflexivity]. }
  split; [exact E|]. apply P. exact E.
Defined.

(** C1 as stated fails: on the four-byte buffer the scan of the region
    [0, 4) raises instead of ending with not-found, and on two buffers that
    agree below 4 the scan of the region [0, 4) gives different results. *)
Lemma findBox_neither_soft_nor_confined :
  ~ fails_soft truncated4 0 4 "moov"
  /\ ~ confined_to_region header_moov 0 4 "moov".
Proof.
  split.
  - intros [r H]. vm_compute in H. discriminate H.
  - intros H. specialize (H header_free eq_refl). vm_compute in H. discriminate H.
Qed.

(** ** C9: the Emulation Byte Stripper *)

Lemma item_of_nat (a : list byte) (i : nat) :
  item a (Z.of_nat i) = nth_error a i.
Proof.
  unfold item. destruct (Z.of_nat i <? 0) eqn:E.
  - apply Z.ltb_lt in E. lia.
  - rewrite Nat2Z.id. reflexivity.
Qed.

Lemma strip_condition (data : list byte) (i : nat) :
  (2 <=? Z.of_nat i) && item_is data (Z.of_nat i - 2) x00
    && item_is data (Z.of_nat i - 1) x00 && item_is data (Z.of_nat i) x03
  = escaped data i.
Proof.
  destruct i as [|[|k]]; try reflexivity.
  replace (2 <=? Z.of_nat (S (S k))) with true by (symmetry; apply Z.leb_le; lia).
  replace (Z.of_nat (S (S k)) - 2) with (Z.of_nat k) by lia.
  replace (Z.of_nat (S (S k)) - 1) with (Z.of_nat (S k)) by lia.
  unfold item_is. rewrite !item_of_nat. unfold escaped.
  destruct (nth_error data k); destruct (nth_error data (S k));
    destruct (nth_error data (S (S k))); simpl;
    rewrite ?andb_false_r; reflexivity.
Qed.

Lemma strip_loop_kept (data : list byte) :
  forall n i result,
    strip_loop data n (Z.of_nat i) result =
    result ++ map (fun j => nth j data x00)
                  (filter (fun j => negb (escaped data j)) (seq i n)).
Proof.
  induction n as [|n IH]; intros i result.
  - simpl. rewrite app_nil_r. reflexivity.
  - cbn [strip_loop]. rewrite strip_condition, Nat2Z.id.
    replace (Z.of_nat i + 1) with (Z.of_nat (S i)) by lia.
    rewrite !IH. cbn [seq filter].
    destruct (escaped data i); cbn [negb map].
    + reflexivity.
    + rewrite <- app_assoc. reflexivity.
Qed.

Lemma map_nth_seq_from (pre l : list byte) :
  map (fun j => nth j (pre ++ l) x00) (seq (List.length pre) (List.length l)) = l.
Proof.
  revert pre. induction l as [|x l IH]; intros pre; simpl; [reflexivity|].
  f_equal.
  - rewrite app_nth2 by lia. rewrite Nat.sub_diag. reflexivity.
  - specialize (IH (pre ++ [x])). rewrite <- app_assoc in IH. simpl in IH.
    rewrite length_app in IH. simpl in IH.
    rewrite Nat.add_1_r in IH. exact IH.
Qed.

Lemma escaped_triplet (data : list byte) (i : nat) :
  escaped data i = true <->
  exists pre post, data = pre ++ [x00; x00; x03] ++ post /\ i = (List.length pre + 2)%nat.
Proof.
  split.
  - destruct i as [|[|k]]; try discriminate. unfold escaped.
    destruct (nth_error data k) as [z0|] eqn:E0; [|discriminate].
    destruct (nth_error data (S k)) as [z1|] eqn:E1; [|discriminate].
    destruct (nth_error data (S (S k))) as [t|] eqn:E2; [|discriminate].
    intros H. apply andb_true_iff in H. destruct H as [H H2].
    apply andb_true_iff in H. destruct H as [H0 H1].
    apply Byte.byte_dec_bl in H0, H1, H2. subst z0 z1 t.
    apply nth_error_split in E0. destruct E0 as (pre & rest & -> & Hk). subst k.
    rewrite nth_error_app2 in E1, E2 by lia.
    replace (S (List.length pre) - List.length pre)%nat with 1%nat in E1 by lia.
    replace (S (S (List.length pre)) - List.length pre)%nat with 2%nat in E2 by lia.
    destruct rest as [|r1 [|r2 post]]; simpl in E1, E2; try discriminate.
    inversion E1; inversion E2; subst.
    exists pre, post. split; [reflexivity | lia].
  - intros (pre & post & -> & ->).
    replace (List.length pre + 2)%nat with (S (S (List.length pre))) by lia.
    unfold escaped.
    rewrite (nth_error_app2 pre _ (n := List.length pre)) by lia.
    rewrite (nth_error_app2 pre _ (n := S (List.length pre))) by lia.
    rewrite (nth_error_app2 pre _ (n := S (S (List.length pre)))) by lia.
    rewrite Nat.sub_diag.
    replace (S (List.length pre) - List.length pre)%nat with 1%nat by lia.
    replace (S (S (List.length pre)) - List.length pre)%nat with 2%nat by lia.
    reflexivity.
Qed.

Lemma stripEmulationBytes_kept (data : list byte) :
  stripEmulationBytes data = kept_bytes data.
Proof. exact (strip_loop_kept data (List.length data) 0 []). Qed.

Lemma strip_no_triplet (data : list byte) :
  ~ has_triplet data -> stripEmulationBytes data = data.
Proof.
  intros H. rewrite stripEmulationBytes_kept. unfold kept_bytes.
  rewrite forallb_filter_id.
  - apply (map_nth_seq_from [] data).
  - apply forallb_forall. intros i _.
    destruct (escaped data i) eqn:E; [|reflexivity].
    exfalso. apply H. apply escaped_triplet in E.
    destruct E as (pre & post & E & _). exists pre, post. exact E.
Qed.

(** C9.  The stripper returns the bytes of its input at the positions that
    are not escaped, in order, where a position is escaped exactly when it
    holds the last byte of a 0x00 0x00 0x03 triplet of the input; an input
    without such a triplet is returned unchanged, and stripping it a second
    time removes nothing. *)
Theorem stripEmulationBytes_spec (data : list byte) :
  stripEmulationBytes data = kept_bytes data
  /\ (forall i, escaped data i = true <->
                exists pre post, data = pre ++ [x00; x00; x03] ++ post
                                 /\ i = (List.length pre + 2)%nat)
  /\ (~ has_triplet data ->
      stripEmulationBytes data = data
      /\ stripEmulationBytes (stripEmulationBytes data) = stripEmulationBytes data).
Proof.
  split; [|split].
  - apply stripEmulationBytes_kept.
  - intros i. apply escaped_triplet.
  - intros H. pose proof (strip_no_triplet data H) as E.
    split; [exact E|]. rewrite E. exact E.
Qed.

Lemma stripEmulationBytes_spec_witness :
  stripEmulationBytes payload1 = payload1
  /\ stripEmulationBytes (stripEmulationBytes payload1) = stripEmulationBytes payload1.
Proof.
  destruct (stripEmulationBytes_spec payload1) as (_ & _ & H).
  apply H. intros (pre & post & E).
  destruct pre as [|p0 [|p1 [|p2 [|p3 pre]]]]; vm_compute in E; try discriminate E.
  destruct pre; discriminate E.
Defined.

(** ** C4: the Payload Marker Locator *)

Lemma skipn_cons_inv (l : list byte) (i : nat) (x : byte) (rest : list byte) :
  skipn i l = x :: rest ->
  nth_error l i = Some x /\ skipn (S i) l = rest /\ (i < List.length l)%nat.
Proof.
  intros H.
  assert (E : nth_error l i = Some x).
  { pose proof (nth_error_skipn i l 0) as N. rewrite H, Nat.add_0_r in N.
    simpl in N. congruence. }
  split; [exact E|]. split.
  - change (S i) with (1 + i)%nat. rewrite <- skipn_skipn, H. reflexivity.
  - apply nth_error_Some. congruence.
Qed.

Lemma skipn_nil_inv (l : list byte) (i : nat) :
  skipn i l = [] -> (List.length l <= i)%nat.
Proof.
  intros H. apply (f_equal (@List.length byte)) in H.
  rewrite length_skipn in H. simpl in H. lia.
Qed.

Lemma run42_le (l : list byte) : (run42 l <= List.length l)%nat.
Proof.
  induction l as [|x l IH]; simpl; [lia|].
  destruct (Byte.eqb x x42); lia.
Qed.

(** With a budget of at least the length of the run, the loop stops right
    after the run. *)
Lemma marker_loop_run (nal : list byte) :
  forall fuel i,
    (run42 (skipn i nal) <= fuel)%nat ->
    marker_loop nal fuel (Z.of_nat i) = Z.of_nat (i + run42 (skipn i nal)).
Proof.
  induction fuel as [|fuel IH]; intros i H.
  - simpl. f_equal. lia.
  - cbn [marker_loop]. unfold item_is. rewrite item_of_nat.
    destruct (skipn i nal) as [|x rest] eqn:E.
    + apply skipn_nil_inv in E.
      replace (Z.of_nat i <? Z.of_nat (List.length nal)) with false
        by (symmetry; apply Z.ltb_ge; lia).
      simpl. f_equal. lia.
    + apply skipn_cons_inv in E. destruct E as (E1 & E2 & E3).
      replace (Z.of_nat i <? Z.of_nat (List.length nal)) with true
        by (symmetry; apply Z.ltb_lt; lia).
      rewrite E1. cbn [andb run42] in *.
      destruct (Byte.eqb x x42).
      * replace (Z.of_nat i + 1) with (Z.of_nat (S i)) by lia.
        rewrite IH; rewrite E2; [f_equal; lia | lia].
      * f_equal. lia.
Qed.

(** The index at which the loop of [decodeSei] stops falsifies the loop
    condition, and every byte from index 3 up to it is 0x42. *)
Lemma marker_loop_exit (nal : list byte) :
  let i := marker_loop nal (List.length nal) 3 in
  3 <= i
  /\ (i <? Z.of_nat (List.length nal)) && item_is nal i x42 = false
  /\ (forall j, 3 <= j < i -> item_is nal j x42 = true).
Proof.
  assert (E : marker_loop nal (List.length nal) 3
              = Z.of_nat (3 + run42 (skipn 3 nal))).
  { apply (marker_loop_run nal (List.length nal) 3).
    pose proof (run42_le (skipn 3 nal)) as L.
    rewrite length_skipn in L. lia. }
  cbv zeta. rewrite E. clear E.
  assert (G : forall l k,
             skipn k nal = l ->
             ((Z.of_nat (k + run42 l) <? Z.of_nat (List.length nal))
                && item_is nal (Z.of_nat (k + run42 l)) x42 = false)
             /\ (forall j, Z.of_nat k <= j < Z.of_nat (k + run42 l) ->
                           item_is nal j x42 = true)).
  { induction l as [|x l IH]; intros k Hk.
    - apply skipn_nil_inv in Hk. simpl. split; [|intros; lia].
      replace (Z.of_nat (k + 0) <? Z.of_nat (List.length nal)) with false
        by (symmetry; apply Z.ltb_ge; lia).
      reflexivity.
    - apply skipn_cons_inv in Hk. destruct Hk as (E1 & E2 & E3).
      cbn [run42]. destruct (Byte.eqb x x42) eqn:Ex.
      + destruct (IH (S k) E2) as [A B].
        replace (k + S (run42 l))%nat with (S k + run42 l)%nat by lia.
        split; [exact A|]. intros j Hj.
        destruct (Z.eq_dec j (Z.of_nat k)) as [->|Hne].
        * unfold item_is. rewrite item_of_nat, E1. exact Ex.
        * apply B. lia.
      + rewrite Nat.add_0_r. split; [|intros; lia].
        unfold item_is. rewrite item_of_nat, E1, Ex. apply andb_false_r. }
  destruct (G (skipn 3 nal) 3%nat eq_refl) as [A B].
  split; [lia|]. split; [exact A | exact B].
Qed.

Lemma slice_inner (a : list byte) (i j : nat) :
  (i <= List.length a)%nat -> (j <= List.length a)%nat ->
  slice a (Z.of_nat i) (Z.of_nat j) = firstn (j - i) (skipn i a).
Proof.
  intros Hi Hj. unfold slice, relIndex.
  replace (Z.of_nat i <? 0) with false by (symmetry; apply Z.ltb_ge; lia).
  replace (Z.of_nat j <? 0) with false by (symmetry; apply Z.ltb_ge; lia).
  rewrite !Z.min_l by lia.
  rewrite Nat2Z.id. f_equal. lia.
Qed.

Lemma located_payload_iff (nal p : list byte) :
  located_payload nal = Some p <->
  (0 < marker_run nal)%nat
  /\ nth_error nal (3 + marker_run nal) = Some x69
  /\ p = stripEmulationBytes (candidate nal)
  /\ (4 <= List.length p)%nat.
Proof.
  unfold located_payload, marker_follows.
  destruct (0 <? marker_run nal)%nat eqn:Hk.
  - apply Nat.ltb_lt in Hk.
    destruct (nth_error nal (3 + marker_run nal)) as [x|] eqn:Hx; cbn [andb].
    + destruct (Byte.eqb x x69) eqn:Ex.
      * apply Byte.byte_dec_bl in Ex. subst x.
        destruct (List.length (stripEmulationBytes (candidate nal)) <? 4)%nat eqn:E4.
        -- apply Nat.ltb_lt in E4. split; [discriminate|].
           intros (_ & _ & -> & H4). lia.
        -- apply Nat.ltb_ge in E4. split.
           ++ intros H. inversion H; subst. auto.
           ++ intros (_ & _ & -> & _). reflexivity.
      * split; [discriminate|]. intros (_ & H & _). inversion H; subst.
        discriminate Ex.
    + split; [discriminate|]. intros (_ & H & _). discriminate H.
  - apply Nat.ltb_ge in Hk. cbn [andb]. split; [discriminate|].
    intros (H & _). lia.
Qed.

Section SchemaProperties.

Variables Message Obj : Type.

Lemma decodeSei_located (ty : SeiType Message Obj) (nal : list byte) :
  decodeSei nal (Some ty) =
  match located_payload nal with
  | Some p =>
      match decode ty p with
      | Some message => Some (toObject ty message)
      | None => None
      end
  | None => None
  end.
Proof.
  unfold decodeSei.
  destruct (Z.of_nat (List.length nal) <? 4) eqn:Hlen.
  - apply Z.ltb_lt in Hlen.
    unfold located_payload, marker_run.
    rewrite skipn_all2 by lia. reflexivity.
  - apply Z.ltb_ge in Hlen.
    assert (E : marker_loop nal (List.length nal) 3
                = Z.of_nat (3 + marker_run nal)).
    { apply (marker_loop_run nal (List.length nal) 3).
      pose proof (run42_le (skipn 3 nal)) as L.
      rewrite length_skipn in L. lia. }
    rewrite E. clear E.
    unfold located_payload, marker_follows, candidate.
    destruct (marker_run nal) as [|k] eqn:Hk.
    + reflexivity.
    + replace (Z.of_nat (3 + S k) <=? 3) with false
        by (symmetry; apply Z.leb_gt; lia).
      replace (0 <? S k)%nat with true by (symmetry; apply Nat.ltb_lt; lia).
      unfold item_is. rewrite item_of_nat. cbn [orb andb].
      destruct (nth_error nal (3 + S k)) as [x|] eqn:Hx.
      * assert (Hin : (3 + S k < List.length nal)%nat).
        { apply nth_error_Some. congruence. }
        destruct (Byte.eqb x x69); cbn [negb]; [|rewrite orb_true_r; reflexivity].
        rewrite orb_false_r, Z.geb_leb.
        destruct (Z.of_nat (List.length nal) <=? Z.of_nat (3 + S k) + 1) eqn:Hlast.
        -- apply Z.leb_le in Hlast.
           replace (List.length nal - 1 - (3 + S k + 1))%nat with 0%nat by lia.
           reflexivity.
        -- apply Z.leb_gt in Hlast.
           replace (Z.of_nat (3 + S k) + 1) with (Z.of_nat (3 + S k + 1)) by lia.
           replace (Z.of_nat (List.length nal) - 1)
             with (Z.of_nat (List.length nal - 1)) by lia.
           rewrite slice_inner by lia.
           set (p := stripEmulationBytes _).
           replace (Z.of_nat (List.length p) <? 4) with (List.length p <? 4)%nat.
           ++ destruct (List.length p <? 4)%nat; reflexivity.
           ++ destruct (List.length p <? 4)%nat eqn:E4.
              ** apply Nat.ltb_lt in E4. symmetry. apply Z.ltb_lt. lia.
              ** apply Nat.ltb_ge in E4. symmetry. apply Z.ltb_ge. lia.
      * cbn [negb]. rewrite orb_true_r. reflexivity.
Qed.

(** C4.  With a schema, [decodeSei] hands to the decoder the payload that the
    specification describes and nothing else: a payload exists exactly when
    the run of 0x42 bytes from index 3 is not empty, the byte after the run
    is 0x69, and the bytes between the marker and the last byte of the unit,
    once stripped, are at least 4 bytes long.  In every other case the unit
    yields [null], with no exception. *)
Theorem decodeSei_spec (ty : SeiType Message Obj) (nal : list byte) :
  decodeSei nal (Some ty) =
    match located_payload nal with
    | Some p =>
        match decode ty p with
        | Some message => Some (toObject ty message)
        | None => None
        end
    | None => None
    end
  /\ (forall p,
        located_payload nal = Some p <->
        (0 < marker_run nal)%nat
        /\ nth_error nal (3 + marker_run nal) = Some x69
        /\ p = stripEmulationBytes (candidate nal)
        /\ (4 <= List.length p)%nat)
  /\ (marker_run nal = 0%nat \/ nth_error nal (3 + marker_run nal) <> Some x69 ->
      decodeSei nal (Some ty) = None).
Proof.
  split; [apply decodeSei_located|]. split; [intros p; apply located_payload_iff|].
  intros H. rewrite decodeSei_located.
  destruct (located_payload nal) as [p|] eqn:E; [|reflexivity].
  apply located_payload_iff in E. destruct E as (E1 & E2 & _).
  destruct H as [H|H]; [lia | contradiction].
Qed.

End SchemaProperties.

(** A unit with two 0x42 bytes and the marker, against one whose run is
    followed by another byte. *)
Lemma decodeSei_spec_witness :
  decodeSei unit1 (Some idSchema) = Some payload1
  /\ decodeSei (bytes_of_list [6; 5; 0; 66; 66; 1; 8; 42; 16; 1; 128])
       (Some idSchema) = None.
Proof.
  split.
  - destruct (decodeSei_spec _ _ idSchema unit1) as (E & _). rewrite E. reflexivity.
  - destruct (decodeSei_spec _ _ idSchema
                (bytes_of_list [6; 5; 0; 66; 66; 1; 8; 42; 16; 1; 128]))
      as (_ & _ & H).
    apply H. right. vm_compute. discriminate.
Defined.

(** ** C7: the Timestamp Builder *)

Lemma timestamps_loop_spec (ts : Z) :
  forall ds time acc,
    timestamps_loop ts ds time acc =
    acc ++ map (fun k => divide (time + ticks_before ds k) ts)
               (seq 0 (List.length ds)).
Proof.
  induction ds as [|d rest IH]; intros time acc.
  - simpl. rewrite app_nil_r. reflexivity.
  - cbn [timestamps_loop List.length seq map]. rewrite IH.
    rewrite <- app_assoc. cbn [app]. f_equal. f_equal.
    + unfold ticks_before. simpl. f_equal. lia.
    + rewrite <- seq_shift, map_map. apply map_ext. intros k.
      unfold ticks_before. cbn [firstn sumZ fold_right]. f_equal.
      unfold sumZ. lia.
Qed.

Lemma nth_map_seq {A : Type} (f : nat -> A) (n k : nat) (d : A) :
  (k < n)%nat -> nth k (map f (seq 0 n)) d = f k.
Proof.
  intros H.
  rewrite (nth_indep _ d (f 0%nat)) by (rewrite length_map, length_seq; exact H).
  rewrite map_nth, seq_nth by exact H. reflexivity.
Qed.

Lemma buildTimestamps_nth (timing : TrackTiming) (k : nat) :
  (k < List.length (durations timing))%nat ->
  nth k (buildTimestamps timing) NaN
  = divide (ticks_before (durations timing) k) (timescale timing).
Proof.
  intros H. unfold buildTimestamps. rewrite timestamps_loop_spec.
  cbn [app]. rewrite nth_map_seq by exact H. reflexivity.
Qed.


Lemma divide_finite (a ts : Z) :
  0 < ts -> divide a ts = Finite (Qred (inject_Z a / inject_Z ts)).
Proof.
  intros H. unfold divide.
  destruct (ts =? 0) eqn:E; [apply Z.eqb_eq in E; lia | reflexivity].
Qed.





(** ** Reading what the encoders wrote *)

Lemma byteval_byte_of_Z (z : Z) : byteval (byte_of_Z z) = z mod 256.
Proof.
  unfold byteval, byte_of_Z.
  pose proof (Z.mod_pos_bound z 256 ltac:(lia)) as B.
  destruct (Byte.of_N (Z.to_N (z mod 256))) as [x|] eqn:E.
  - apply Byte.to_of_N in E. rewrite E. apply Z2N.id. lia.
  - apply Byte.of_N_None_iff in E. lia.
Qed.

Lemma bytes_at_app (b : buffer) (pos : Z) (l1 l2 : list byte) :
  bytes_at b pos (l1 ++ l2) ->
  bytes_at b pos l1 /\ bytes_at b (pos + Z.of_nat (List.length l1)) l2.
Proof.
  unfold bytes_at. intros [Hpos H]. rewrite length_app in H.
  split; split; try lia.
  - apply (f_equal (firstn (List.length l1))) in H.
    rewrite firstn_firstn in H.
    replace (Nat.min (List.length l1) (List.length l1 + List.length l2))
      with (List.length l1) in H by lia.
    rewrite H, firstn_app, Nat.sub_diag, firstn_all. simpl.
    apply app_nil_r.
  - replace (Z.to_nat (pos + Z.of_nat (List.length l1)))
      with (List.length l1 + Z.to_nat pos)%nat by lia.
    rewrite <- skipn_skipn, firstn_skipn_comm, H.
    rewrite skipn_app, Nat.sub_diag, skipn_all. reflexivity.
Qed.

Lemma bytes_at_rawByte (b : buffer) (pos : Z) (l : list byte) (i : nat) :
  bytes_at b pos l -> (i < List.length l)%nat ->
  rawByte b (pos + Z.of_nat i) = byteval (nth i l x00)
  /\ pos + Z.of_nat (List.length l) <= byteLength b.
Proof.
  unfold bytes_at, rawByte, byteLength. intros [Hpos H] Hi. split.
  - f_equal. rewrite <- H.
    rewrite nth_firstn.
    replace (i <? List.length l)%nat with true by (symmetry; apply Nat.ltb_lt; exact Hi).
    rewrite nth_skipn. f_equal. lia.
  - apply (f_equal (@List.length byte)) in H.
    rewrite length_firstn, length_skipn in H. lia.
Qed.

Lemma getUint32_be32 (b : buffer) (pos n : Z) :
  uint32 n -> bytes_at b pos (be32 n) -> getUint32 b pos = Ok n.
Proof.
  unfold uint32. intros Hn H.
  destruct (bytes_at_rawByte b pos (be32 n) 0 H ltac:(simpl; lia)) as [E0 L].
  destruct (bytes_at_rawByte b pos (be32 n) 1 H ltac:(simpl; lia)) as [E1 _].
  destruct (bytes_at_rawByte b pos (be32 n) 2 H ltac:(simpl; lia)) as [E2 _].
  destruct (bytes_at_rawByte b pos (be32 n) 3 H ltac:(simpl; lia)) as [E3 _].
  destruct H as [Hpos _].
  change (Z.of_nat (List.length (be32 n))) with 4 in L.
  change (Z.of_nat 0) with 0 in E0. rewrite Z.add_0_r in E0.
  change (Z.of_nat 1) with 1 in E1.
  change (Z.of_nat 2) with 2 in E2.
  change (Z.of_nat 3) with 3 in E3.
  unfold getUint32.
  replace (0 <=? pos) with true by (symmetry; apply Z.leb_le; lia).
  replace (pos + 4 <=? byteLength b) with true by (symmetry; apply Z.leb_le; lia).
  cbn [andb]. rewrite E0, E1, E2, E3. cbn [be32 nth].
  rewrite !byteval_byte_of_Z. f_equal.
  Z.to_euclidean_division_equations. lia.
Qed.



(** ** C5 and C6: the Timing Extractor *)

Lemma timing_after_header (b : buffer) (mdia mdhd : Box) :
  header_chain b mdia mdhd ->
  getTimescaleAndDurations b =
  (version <- getUint8 b (offset mdhd + 8) ;;
   timescale <-
     (if version =? 0 then getUint32 b (offset mdhd + 8 + 12)
      else getUint32 b (offset mdhd + 8 + 20)) ;;
   durations_from b mdia timescale).
Proof.
  intros (moov & trak & H1 & H2 & H3 & H4).
  unfold getTimescaleAndDurations.
  rewrite H1. cbn [bind]. rewrite H2. cbn [bind].
  rewrite H3. cbn [bind]. rewrite H4. reflexivity.
Qed.


Lemma durations_from_Ok (b : buffer) (mdia : Box) (ts : Z) (r : option TrackTiming) :
  durations_from b mdia ts = Ok r -> exists t, r = Some t /\ timescale t = ts.
Proof.
  unfold durations_from.
  destruct (findBox b (offset mdia + 8) (offset mdia + size mdia) "minf")
    as [[minf|]| |]; cbn [bind]; try discriminate;
    [|intros H; inversion H; eexists; split; reflexivity].
  destruct (findBox b (offset minf + 8) (offset minf + size minf) "stbl")
    as [[stbl|]| |]; cbn [bind]; try discriminate;
    [|intros H; inversion H; eexists; split; reflexivity].
  destruct (findBox b (offset stbl + 8) (offset stbl + size stbl) "stts")
    as [[stts|]| |]; cbn [bind]; try discriminate;
    [|intros H; inversion H; eexists; split; reflexivity].
  destruct (getUint32 b (offset stts + 8 + 4)) as [n| |]; cbn [bind];
    try discriminate.
  destruct (stts_loop b (Z.to_nat n) (offset stts + 8 + 8) []) as [ds| |];
    cbn [bind]; try discriminate.
  intros H; inversion H; eexists; split; reflexivity.
Qed.


Lemma timing_with_timescale (b : buffer) (mdia mdhd : Box) (version ts : Z) :
  header_chain b mdia mdhd ->
  getUint8 b (offset mdhd + 8) = Ok version ->
  getUint32 b (offset mdhd + 8 + (if version =? 0 then 12 else 20)) = Ok ts ->
  getTimescaleAndDurations b = durations_from b mdia ts.
Proof.
  intros Hc Hv Hts. rewrite (timing_after_header b mdia mdhd Hc), Hv.
  cbn [bind]. destruct (version =? 0); rewrite Hts; reflexivity.
Qed.





(** ** The loop of [extractSeiMessages] *)

Section ScanProperties.

Variables Message Obj : Type.

Implicit Types (seiType : option (SeiType Message Obj)) (acc : list Obj).

Lemma sei_loop_step (fuel : nat) (b : buffer) seiType (cursor end_ : Z) acc :
  sei_loop (S fuel) b seiType cursor end_ acc =
  sei_step b seiType cursor end_ acc (fun c m => sei_loop fuel b seiType c end_ m).
Proof. reflexivity. Qed.

Lemma sei_loop_fuel (b : buffer) seiType (end_ : Z) :
  forall f1 f2 cursor acc,
    (Z.to_nat (end_ - cursor) < f1)%nat -> (Z.to_nat (end_ - cursor) < f2)%nat ->
    sei_loop f1 b seiType cursor end_ acc = sei_loop f2 b seiType cursor end_ acc.
Proof.
  induction f1 as [|f1 IH]; intros f2 cursor acc H1 H2; [lia|].
  destruct f2 as [|f2]; [lia|].
  rewrite !sei_loop_step. unfold sei_step.
  destruct (cursor + 4 <=? end_) eqn:Hle; [|reflexivity].
  apply Z.leb_le in Hle.
  destruct (getUint32 b cursor) as [n| |] eqn:Hn; cbn [bind]; try reflexivity.
  apply getUint32_Ok in Hn.
  destruct ((n <? 2) || (cursor + 4 + n >? byteLength b)).
  - apply IH; lia.
  - destruct (getUint8 b (cursor + 4)); cbn [bind]; try reflexivity.
    destruct (getUint8 b (cursor + 4 + 1)); cbn [bind]; try reflexivity.
    apply IH; lia.
Qed.

(** The loop equation of the scan. *)
Lemma scan_eq (b : buffer) seiType (cursor end_ : Z) acc :
  scan b seiType cursor end_ acc =
  sei_step b seiType cursor end_ acc (fun c m => scan b seiType c end_ m).
Proof.
  unfold scan at 1. rewrite sei_loop_step. unfold sei_step.
  destruct (cursor + 4 <=? end_) eqn:Hle; [|reflexivity].
  apply Z.leb_le in Hle.
  destruct (getUint32 b cursor) as [n| |] eqn:Hn; cbn [bind]; try reflexivity.
  apply getUint32_Ok in Hn.
  destruct ((n <? 2) || (cursor + 4 + n >? byteLength b)).
  - apply sei_loop_fuel; lia.
  - destruct (getUint8 b (cursor + 4)); cbn [bind]; try reflexivity.
    destruct (getUint8 b (cursor + 4 + 1)); cbn [bind]; try reflexivity.
    apply sei_loop_fuel; lia.
Qed.

Lemma sei_loop_raises (b : buffer) seiType (end_ : Z) :
  forall fuel cursor acc,
    (Z.to_nat (end_ - cursor) < fuel)%nat ->
    raises_only_RangeError (sei_loop fuel b seiType cursor end_ acc).
Proof.
  induction fuel as [|fuel IH]; intros cursor acc H; [lia|].
  rewrite sei_loop_step. unfold sei_step.
  destruct (cursor + 4 <=? end_) eqn:Hle; [|exact I].
  apply Z.leb_le in Hle.
  apply bind_raises; [apply getUint32_raises|]. intros n Hn.
  apply getUint32_Ok in Hn.
  destruct ((n <? 2) || (cursor + 4 + n >? byteLength b)).
  - apply IH; lia.
  - apply bind_raises; [apply getUint8_raises|]. intros b0 _.
    apply bind_raises; [apply getUint8_raises|]. intros b1 _.
    apply IH; lia.
Qed.

(** The scan always ends, with the messages or with [RangeError]. *)
Lemma scan_total (b : buffer) seiType (cursor end_ : Z) acc :
  raises_only_RangeError (scan b seiType cursor end_ acc).
Proof. apply sei_loop_raises. lia. Qed.


(** The messages collected so far stay in front, in order. *)
Lemma sei_loop_extends (b : buffer) seiType (end_ : Z) :
  forall fuel cursor acc l,
    sei_loop fuel b seiType cursor end_ acc = Ok l -> exists l', l = acc ++ l'.
Proof.
  induction fuel as [|fuel IH]; intros cursor acc l; [discriminate|].
  rewrite sei_loop_step. unfold sei_step.
  destruct (cursor + 4 <=? end_).
  - destruct (getUint32 b cursor) as [n| |]; cbn [bind]; try discriminate.
    destruct ((n <? 2) || (cursor + 4 + n >? byteLength b)); [apply IH|].
    destruct (getUint8 b (cursor + 4)) as [b0| |]; cbn [bind]; try discriminate.
    destruct (getUint8 b (cursor + 4 + 1)) as [b1| |]; cbn [bind]; try discriminate.
    destruct ((Z.land b0 31 =? 6) && (b1 =? 5)); [|apply IH].
    destruct (decodeSei (slice b (cursor + 4) (cursor + 4 + n)) seiType) as [d|];
      [|apply IH].
    intros H. apply IH in H. destruct H as [l' ->].
    exists (d :: l'). rewrite <- app_assoc. reflexivity.
  - intros H. inversion H. exists []. rewrite app_nil_r. reflexivity.
Qed.

(** When the box ends inside the buffer no read of the scan is out of
    range. *)
Lemma sei_loop_in_buffer (b : buffer) seiType (end_ : Z) :
  end_ <= byteLength b ->
  forall fuel cursor acc,
    0 <= cursor -> (Z.to_nat (end_ - cursor) < fuel)%nat ->
    exists l, sei_loop fuel b seiType cursor end_ acc = Ok (acc ++ l).
Proof.
  intros Hend. induction fuel as [|fuel IH]; intros cursor acc Hc Hf; [lia|].
  rewrite sei_loop_step. unfold sei_step.
  destruct (cursor + 4 <=? end_) eqn:Hle.
  - apply Z.leb_le in Hle.
    destruct (getUint32_in_range b cursor Hc ltac:(lia)) as [n Hn].
    rewrite Hn. cbn [bind]. apply getUint32_Ok in Hn.
    destruct ((n <? 2) || (cursor + 4 + n >? byteLength b)) eqn:Hskip.
    + apply IH; lia.
    + apply orb_false_iff in Hskip. destruct Hskip as [H2 Hfit].
      apply Z.ltb_ge in H2. rewrite Z.gtb_ltb in Hfit. apply Z.ltb_ge in Hfit.
      rewrite !getUint8_in_range by lia. cbn [bind].
      match goal with
      | |- exists l, sei_loop _ _ _ _ _ ?acc' = _ =>
          destruct (IH (cursor + 4 + n) acc' ltac:(lia) ltac:(lia)) as [l Hl];
          rewrite Hl
      end.
      destruct ((Z.land (rawByte b (cursor + 4)) 31 =? 6)
                && (rawByte b (cursor + 4 + 1) =? 5)); [|exists l; reflexivity].
      destruct (decodeSei (slice b (cursor + 4) (cursor + 4 + n)) seiType) as [d|];
        [|exists l; reflexivity].
      exists (d :: l). rewrite <- app_assoc. reflexivity.
  - exists []. rewrite app_nil_r. reflexivity.
Qed.

Lemma scan_in_buffer (b : buffer) seiType (cursor end_ : Z) acc :
  end_ <= byteLength b -> 0 <= cursor ->
  exists l, scan b seiType cursor end_ acc = Ok (acc ++ l).
Proof.
  intros He Hc. apply sei_loop_in_buffer; [exact He | exact Hc | lia].
Qed.


End ScanProperties.

(** ** C2: corrupt units *)

Lemma slice_bytes_at (b : buffer) (pos : Z) (l : list byte) :
  bytes_at b pos l -> slice b pos (pos + Z.of_nat (List.length l)) = l.
Proof.
  intros H. destruct l as [|x l].
  - unfold slice. simpl. rewrite Z.add_0_r, Z.sub_diag. reflexivity.
  - assert (L : pos + Z.of_nat (List.length (x :: l)) <= byteLength b).
    { apply (bytes_at_rawByte b pos (x :: l) 0 H). simpl. lia. }
    destruct H as [Hpos H].
    unfold slice, relIndex. unfold byteLength in L.
    replace (pos <? 0) with false by (symmetry; apply Z.ltb_ge; lia).
    replace (pos + Z.of_nat (List.length (x :: l)) <? 0) with false
      by (symmetry; apply Z.ltb_ge; lia).
    rewrite !Z.min_l by lia.
    replace (Z.to_nat (pos + Z.of_nat (List.length (x :: l)) - pos))
      with (List.length (x :: l)) by lia.
    exact H.
Qed.

Section CorruptUnits.

Variables Message Obj : Type.

Implicit Types (seiType : option (SeiType Message Obj)) (acc : list Obj).

(** A whole unit at the cursor: its bytes are classified, decoded when they
    qualify, and the cursor moves past them. *)
Lemma scan_unit (b : buffer) seiType (cursor end_ : Z) acc (unit : list byte) :
  cursor + 4 <= end_ ->
  bytes_at b cursor (unit_bytes (Z.of_nat (List.length unit)) unit) ->
  (2 <= List.length unit)%nat ->
  uint32 (Z.of_nat (List.length unit)) ->
  scan b seiType cursor end_ acc =
  scan b seiType (cursor + 4 + Z.of_nat (List.length unit)) end_
    (if qualifies unit then
       match decodeSei unit seiType with
       | Some decoded => acc ++ [decoded]
       | None => acc
       end
     else acc).
Proof.
  intros Hle Hb Hlen Hu.
  unfold unit_bytes in Hb. apply bytes_at_app in Hb. destruct Hb as [Hn Hunit].
  change (Z.of_nat (List.length (be32 (Z.of_nat (List.length unit)))))
    with 4 in Hunit.
  destruct (bytes_at_rawByte b (cursor + 4) unit 0 Hunit ltac:(lia)) as [E0 L].
  destruct (bytes_at_rawByte b (cursor + 4) unit 1 Hunit ltac:(lia)) as [E1 _].
  change (Z.of_nat 0) with 0 in E0. rewrite Z.add_0_r in E0.
  change (Z.of_nat 1) with 1 in E1.
  pose proof Hunit as [Hpos _].
  rewrite scan_eq. unfold sei_step.
  replace (cursor + 4 <=? end_) with true by (symmetry; apply Z.leb_le; lia).
  rewrite (getUint32_be32 b cursor _ Hu Hn). cbn [bind].
  replace (Z.of_nat (List.length unit) <? 2) with false
    by (symmetry; apply Z.ltb_ge; lia).
  rewrite Z.gtb_ltb.
  replace (byteLength b <? cursor + 4 + Z.of_nat (List.length unit)) with false
    by (symmetry; apply Z.ltb_ge; lia).
  cbn [orb]. rewrite !getUint8_in_range by lia. cbn [bind].
  rewrite (slice_bytes_at b (cursor + 4) unit Hunit), E0, E1.
  reflexivity.
Qed.

(** C2, as the code has it.  The scan starts at content offset 8 of the
    raw-media-data box and stops as soon as the cursor plus 4 exceeds the box
    end.  A unit whose declared length is below 2, or runs past the end of the
    buffer, adds no message and moves the cursor by 4 plus the declared
    length.  After a unit of declared length 0 or 1 a qualifying, decodable
    unit placed where the cursor lands is recovered.  After a unit whose
    declared length runs past the end of the buffer the cursor is beyond the
    buffer: when the box ends inside the buffer the scan stops there with the
    messages collected before, so no later unit is recovered. *)
Theorem scan_skips_corrupt_units (b : buffer) seiType (cursor end_ : Z) acc :
  extractSeiMessages b seiType =
    (mdat <- getMdatInfo b ;;
     match mdat with
     | None => Ok []
     | Some mdat => scan b seiType (offset mdat + 8) (offset mdat + size mdat) []
     end)
  /\ (end_ < cursor + 4 -> scan b seiType cursor end_ acc = Ok acc)
  /\ (forall nalSize,
        cursor + 4 <= end_ ->
        getUint32 b cursor = Ok nalSize ->
        nalSize < 2 \/ cursor + 4 + nalSize > byteLength b ->
        scan b seiType cursor end_ acc
        = scan b seiType (cursor + 4 + nalSize) end_ acc
        /\ (nalSize < 2 ->
            forall unit r,
              cursor + 4 + nalSize + 4 <= end_ ->
              bytes_at b (cursor + 4 + nalSize)
                (unit_bytes (Z.of_nat (List.length unit)) unit) ->
              (2 <= List.length unit)%nat ->
              uint32 (Z.of_nat (List.length unit)) ->
              qualifies unit = true ->
              decodeSei unit seiType = Some r ->
              scan b seiType cursor end_ acc
              = scan b seiType
                  (cursor + 4 + nalSize + 4 + Z.of_nat (List.length unit)) end_
                  (acc ++ [r])
              /\ (end_ <= byteLength b ->
                  exists l, scan b seiType cursor end_ acc = Ok (acc ++ r :: l)))
        /\ (cursor + 4 + nalSize > byteLength b -> end_ <= byteLength b ->
            scan b seiType cursor end_ acc = Ok acc)).
Proof.
  split; [reflexivity|]. split.
  - intros H. rewrite scan_eq. unfold sei_step.
    replace (cursor + 4 <=? end_) with false by (symmetry; apply Z.leb_gt; lia).
    reflexivity.
  - intros nalSize Hle Hn Hbad.
    pose proof (getUint32_Ok _ _ _ Hn) as R.
    assert (Hskip : scan b seiType cursor end_ acc
                    = scan b seiType (cursor + 4 + nalSize) end_ acc).
    { rewrite scan_eq at 1. unfold sei_step.
      replace (cursor + 4 <=? end_) with true by (symmetry; apply Z.leb_le; lia).
      rewrite Hn. cbn [bind].
      replace ((nalSize <? 2) || (cursor + 4 + nalSize >? byteLength b)) with true.
      - rewrite Z.max_l by lia. reflexivity.
      - symmetry. apply orb_true_iff. destruct Hbad as [H|H].
        + left. apply Z.ltb_lt. exact H.
        + right. rewrite Z.gtb_ltb. apply Z.ltb_lt. lia. }
    split; [exact Hskip|]. split.
    + intros Hsmall unit r Hnext Hb Hlen Hu Hq Hd.
      assert (Hrec : scan b seiType cursor end_ acc
                     = scan b seiType
                         (cursor + 4 + nalSize + 4 + Z.of_nat (List.length unit))
                         end_ (acc ++ [r])).
      { rewrite Hskip.
        rewrite (scan_unit b seiType (cursor + 4 + nalSize) end_ acc unit
                   Hnext Hb Hlen Hu).
        rewrite Hq, Hd. reflexivity. }
      split; [exact Hrec|]. intros Hend.
      destruct (scan_in_buffer _ _ b seiType
                  (cursor + 4 + nalSize + 4 + Z.of_nat (List.length unit)) end_
                  (acc ++ [r]) Hend ltac:(lia)) as [l Hl].
      exists l. rewrite Hrec, Hl, <- app_assoc. reflexivity.
    + intros Hover Hend. rewrite Hskip, scan_eq. unfold sei_step.
      replace (cursor + 4 + nalSize + 4 <=? end_) with false
        by (symmetry; apply Z.leb_gt; lia).
      reflexivity.
Qed.

End CorruptUnits.

(** A unit of declared length 1 followed by a qualifying unit: the second
    unit is recovered. *)
Lemma scan_skips_corrupt_units_witness :
  exists l, scan mdat_short (Some idSchema) 8 28 [] = Ok ([] ++ payload1 :: l).
Proof.
  destruct (scan_skips_corrupt_units _ _ mdat_short (Some idSchema) 8 28 [])
    as (_ & _ & H).
  destruct (H 1) as (_ & R & _).
  - discriminate.
  - reflexivity.
  - left. reflexivity.
  - destruct (R eq_refl unit1 payload1) as [_ E].
    + discriminate.
    + split; [discriminate | reflexivity].
    + simpl. lia.
    + split; [discriminate | reflexivity].
    + reflexivity.
    + reflexivity.
    + apply E. discriminate.
Defined.

(** C2 as stated fails.  In [mdat_overlong] the first unit declares 255
    bytes, more than the buffer holds after it; the qualifying unit [unit1]
    follows it in the same box and decodes to [payload1], yet the scan
    returns no message. *)
Lemma overlong_unit_hides_next_unit :
  getUint32 mdat_overlong 8 = Ok 255
  /\ 8 + 4 + 255 > byteLength mdat_overlong
  /\ bytes_at mdat_overlong 12 (unit_bytes 11 unit1)
  /\ qualifies unit1 = true
  /\ decodeSei unit1 (Some idSchema) = Some payload1
  /\ extractSeiMessages mdat_overlong (Some idSchema) = Ok []
  /\ ~ (exists msgs,
          extractSeiMessages mdat_overlong (Some idSchema) = Ok msgs
          /\ In payload1 msgs).
Proof.
  repeat split; try reflexivity; try discriminate.
  intros (msgs & H & Hin). vm_compute in H. inversion H; subst. exact Hin.
Qed.

(** In a raw-media-data box cut short the cursor lands beyond the buffer
    while still before the declared end of the box: the next length read is
    out of range. *)
Example scan_truncated_box :
  extractSeiMessages mdat_truncated (Some idSchema) = Throw RangeError.
Proof. reflexivity. Qed.

(** ** C3: the outcomes of [processSingleVideo] *)

Section Orchestrator.

Variables Message Obj : Type.




End Orchestrator.


(** With a schema whose decoder rejects every payload the only unit of the
    complete file is dropped, and the call fails for lack of telemetry. *)
Example rejecting_decoder :
  extractSeiMessages file_ok (Some failSchema) = Ok []
  /\ processSingleVideo (Some failSchema) (mkFile "front.mp4" file_ok)
     = Throw NoTelemetryError.
Proof. split; reflexivity. Qed.


(** ** C10: no raw-media-data box *)

Lemma bytes_at_middle (pre l post : list byte) :
  bytes_at (pre ++ l ++ post) (Z.of_nat (List.length pre)) l.
Proof.
  unfold bytes_at. split; [lia|].
  rewrite Nat2Z.id, skipn_app, skipn_all, Nat.sub_diag. simpl.
  rewrite firstn_app, firstn_all, Nat.sub_diag. simpl. apply app_nil_r.
Qed.

Lemma fromCharCode_byte (a : ascii) :
  fromCharCode (byteval (byte_of_ascii a)) = String a EmptyString.
Proof.
  unfold fromCharCode, byteval. rewrite N2Z.id.
  rewrite <- ascii_of_byte_via_N, ascii_of_byte_of_ascii. reflexivity.
Qed.

Lemma getString_tag (b : buffer) (pos : Z) (tag : string) :
  String.length tag = 4%nat ->
  bytes_at b pos (list_byte_of_string tag) ->
  getString b pos 4 = Ok tag.
Proof.
  intros Hlen H.
  destruct tag as [|a0 [|a1 [|a2 [|a3 [|a4 tag]]]]]; try discriminate Hlen.
  change (list_byte_of_string (String a0 (String a1 (String a2 (String a3 EmptyString)))))
    with [byte_of_ascii a0; byte_of_ascii a1; byte_of_ascii a2; byte_of_ascii a3] in H.
  destruct (bytes_at_rawByte b pos _ 0 H ltac:(simpl; lia)) as [E0 L].
  destruct (bytes_at_rawByte b pos _ 1 H ltac:(simpl; lia)) as [E1 _].
  destruct (bytes_at_rawByte b pos _ 2 H ltac:(simpl; lia)) as [E2 _].
  destruct (bytes_at_rawByte b pos _ 3 H ltac:(simpl; lia)) as [E3 _].
  destruct H as [Hpos _].
  cbn [List.length nth] in *.
  change (Z.of_nat 0) with 0 in E0. change (Z.of_nat 1) with 1 in E1.
  change (Z.of_nat 2) with 2 in E2. change (Z.of_nat 3) with 3 in E3.
  change (Z.of_nat 4) with 4 in L.
  rewrite getString_4, !getUint8_in_range by lia. cbn [bind].
  rewrite E0, E1, E2, E3, !fromCharCode_byte. reflexivity.
Qed.

Lemma list_byte_of_string_length (s : string) :
  List.length (list_byte_of_string s) = String.length s.
Proof.
  unfold list_byte_of_string. rewrite length_map.
  induction s as [|a s IH]; simpl; [reflexivity | rewrite IH; reflexivity].
Qed.



Section NoMediaData.

Variables Message Obj : Type.


End NoMediaData.


(** Four stray bytes after the movie box: the search for the raw-media-data
    box runs into a header that is not wholly inside the buffer. *)
Example trailing_bytes :
  getTimescaleAndDurations file_no_mdat_trailing
    = Ok (Some (mkTiming 90000 [3000; 3000]))
  /\ getMdatInfo file_no_mdat_trailing = Throw RangeError.
Proof. split; reflexivity. Qed.

(** * Further properties *)

(** ** The Box Navigator over complete boxes *)

Lemma getUint8_bytes_at (b : buffer) (pos : Z) (l : list byte) (i : nat) :
  bytes_at b pos l -> (i < List.length l)%nat ->
  getUint8 b (pos + Z.of_nat i) = Ok (byteval (nth i l x00)).
Proof.
  intros H Hi.
  destruct (bytes_at_rawByte b pos l i H Hi) as [E L].
  destruct H as [Hpos _].
  rewrite getUint8_in_range by lia. rewrite E. reflexivity.
Qed.

Lemma bytes_at_box (b : buffer) (pos : Z) (tag : string) (content : list byte) :
  String.length tag = 4%nat ->
  bytes_at b pos (box_bytes tag content) ->
  bytes_at b pos (be32 (8 + Z.of_nat (List.length content)))
  /\ bytes_at b (pos + 4) (list_byte_of_string tag)
  /\ bytes_at b (pos + 8) content.
Proof.
  intros Htag H. unfold box_bytes in H.
  apply bytes_at_app in H. destruct H as [H1 H].
  apply bytes_at_app in H. destruct H as [H2 H3].
  change (Z.of_nat (List.length (be32 (8 + Z.of_nat (List.length content)))))
    with 4 in H2, H3.
  rewrite list_byte_of_string_length, Htag in H3.
  replace (pos + 4 + Z.of_nat 4) with (pos + 8) in H3 by lia.
  auto.
Qed.

Lemma box_bytes_length (tag : string) (content : list byte) :
  String.length tag = 4%nat ->
  Z.of_nat (List.length (box_bytes tag content))
  = 8 + Z.of_nat (List.length content).
Proof.
  intros Htag. unfold box_bytes.
  rewrite !length_app, list_byte_of_string_length, Htag.
  change (List.length (be32 (8 + Z.of_nat (List.length content)))) with 4%nat.
  lia.
Qed.

(** One iteration over a complete box whose header lies at [off]. *)
Lemma findBox_at_box (b : buffer) (off end_ : Z) (name tag : string)
    (content : list byte) :
  off < end_ ->
  well_formed_box (tag, content) ->
  bytes_at b off (box_bytes tag content) ->
  findBox b off end_ name =
  if String.eqb tag name
  then Ok (Some (mkBox off (8 + Z.of_nat (List.length content)) tag))
  else findBox b (off + (8 + Z.of_nat (List.length content))) end_ name.
Proof.
  intros Hlt [Htag Hsize] H. cbn [fst snd] in *.
  destruct (bytes_at_box b off tag content Htag H) as (H1 & H2 & _).
  rewrite findBox_eq. unfold findBox_step.
  apply Z.ltb_lt in Hlt. rewrite Hlt.
  rewrite (getUint32_be32 b off _ Hsize H1). cbn [bind].
  rewrite (getString_tag b (off + 4) tag Htag H2). cbn [bind].
  replace (8 + Z.of_nat (List.length content) =? 0) with false
    by (symmetry; apply Z.eqb_neq; lia).
  replace (8 + Z.of_nat (List.length content) =? 1) with false
    by (symmetry; apply Z.eqb_neq; lia).
  reflexivity.
Qed.

Lemma find_box_from (name : string) (boxes : list (string * list byte)) :
  forall pos bx, find_box name boxes pos = Some bx -> pos <= offset bx.
Proof.
  induction boxes as [|[tag content] rest IH]; intros pos bx H; [discriminate|].
  cbn [find_box] in H. destruct (String.eqb tag name).
  - inversion H; subst. cbn [offset]. lia.
  - apply IH in H. lia.
Qed.

Lemma bytes_at_encode_cons (b : buffer) (pos : Z) (tag : string)
    (content : list byte) (rest : list (string * list byte)) :
  String.length tag = 4%nat ->
  bytes_at b pos (encode_boxes ((tag, content) :: rest)) ->
  bytes_at b pos (box_bytes tag content)
  /\ bytes_at b (pos + (8 + Z.of_nat (List.length content))) (encode_boxes rest).
Proof.
  intros Htag H.
  change (encode_boxes ((tag, content) :: rest))
    with (box_bytes tag content ++ encode_boxes rest) in H.
  apply bytes_at_app in H. rewrite (box_bytes_length tag content Htag) in H.
  exact H.
Qed.

Lemma findBox_boxes_found (b : buffer) (name : string) (end_ : Z) :
  forall boxes pos bx,
    Forall well_formed_box boxes ->
    bytes_at b pos (encode_boxes boxes) ->
    find_box name boxes pos = Some bx ->
    offset bx < end_ ->
    findBox b pos end_ name = Ok (Some bx).
Proof.
  induction boxes as [|[tag content] rest IH]; intros pos bx Hwf Hb Hf Hlt;
    [discriminate|].
  inversion Hwf as [|? ? Hbox Hwf']; subst.
  pose proof Hbox as [Htag _]. cbn [fst] in Htag.
  destruct (bytes_at_encode_cons b pos tag content rest Htag Hb) as [Hhere Hrest].
  pose proof (find_box_from name _ pos bx Hf) as Hpos.
  rewrite (findBox_at_box b pos end_ name tag content ltac:(lia) Hbox Hhere).
  cbn [find_box] in Hf. destruct (String.eqb tag name).
  - congruence.
  - apply IH; assumption.
Qed.

Lemma findBox_boxes_none (b : buffer) (name : string) (end_ : Z) :
  forall boxes pos,
    Forall well_formed_box boxes ->
    bytes_at b pos (encode_boxes boxes) ->
    find_box name boxes pos = None ->
    end_ <= pos + Z.of_nat (List.length (encode_boxes boxes)) ->
    findBox b pos end_ name = Ok None.
Proof.
  induction boxes as [|[tag content] rest IH]; intros pos Hwf Hb Hf Hend.
  - apply findBox_past_end. simpl in Hend. lia.
  - inversion Hwf as [|? ? Hbox Hwf']; subst.
    pose proof Hbox as [Htag _]. cbn [fst] in Htag.
    destruct (bytes_at_encode_cons b pos tag content rest Htag Hb) as [Hhere Hrest].
    destruct (Z_lt_ge_dec pos end_) as [Hlt|Hge];
      [|apply findBox_past_end; lia].
    rewrite (findBox_at_box b pos end_ name tag content Hlt Hbox Hhere).
    cbn [find_box] in Hf. destruct (String.eqb tag name); [discriminate|].
    apply IH; try assumption.
    change (encode_boxes ((tag, content) :: rest))
      with (box_bytes tag content ++ encode_boxes rest) in Hend.
    rewrite length_app, Nat2Z.inj_add, (box_bytes_length tag content Htag) in Hend.
    lia.
Qed.

Lemma bytes_at_prefix (l post : list byte) : bytes_at (l ++ post) 0 l.
Proof. exact (bytes_at_middle [] l post). Qed.

(** X1.  Over a run of complete boxes lying at [pos], a scan of a region
    that starts at [pos] returns the first box carrying the name, with the
    position of its header and its size, as soon as that header lies inside
    the region; it returns not-found when no box of the run carries the name
    and the region ends with the run or before. *)
Theorem findBox_first_match (b : buffer) (name : string) (pos end_ : Z)
    (boxes : list (string * list byte)) :
  Forall well_formed_box boxes ->
  bytes_at b pos (encode_boxes boxes) ->
  (forall bx, find_box name boxes pos = Some bx -> offset bx < end_ ->
              findBox b pos end_ name = Ok (Some bx))
  /\ (find_box name boxes pos = None ->
      end_ <= pos + Z.of_nat (List.length (encode_boxes boxes)) ->
      findBox b pos end_ name = Ok None).
Proof.
  intros Hwf Hb. split.
  - intros bx. apply findBox_boxes_found; assumption.
  - apply findBox_boxes_none; assumption.
Qed.

Lemma findBox_first_match_witness :
  findBox (encode_boxes [("free"%string, [x00]); ("mdat"%string, []);
                         ("mdat"%string, [x01])])
    0 25 "mdat"
  = Ok (Some (mkBox 9 8 "mdat")).
Proof.
  destruct (findBox_first_match
              (encode_boxes [("free"%string, [x00]); ("mdat"%string, []);
                             ("mdat"%string, [x01])])
              "mdat" 0 25
              [("free"%string, [x00]); ("mdat"%string, []);
               ("mdat"%string, [x01])]) as [H _].
  - repeat constructor; discriminate.
  - split; [discriminate | reflexivity].
  - apply H; reflexivity.
Defined.

(** ** What a box returned by the Box Navigator satisfies *)

Lemma findBox_loop_found_inv (b : buffer) (end_ : Z) (name : string) (bx : Box) :
  forall fuel off,
    findBox_loop fuel b off end_ name = Ok (Some bx) ->
    type bx = name
    /\ getUint32 b (offset bx) = Ok (size bx)
    /\ getString b (offset bx + 4) 4 = Ok name
    /\ size bx <> 0 /\ size bx <> 1.
Proof.
  induction fuel as [|fuel IH]; intros off; [discriminate|].
  rewrite findBox_loop_step. unfold findBox_step.
  destruct (off <? end_); [|discriminate].
  destruct (getUint32 b off) as [sz| |] eqn:Hsz; cbn [bind]; try discriminate.
  destruct (getString b (off + 4) 4) as [ty| |] eqn:Hty; cbn [bind];
    try discriminate.
  destruct (sz =? 0) eqn:E0; [discriminate|].
  destruct (sz =? 1) eqn:E1; [apply IH|].
  destruct (String.eqb ty name) eqn:En; [|apply IH].
  intros H. inversion H; subst. cbn [offset size type].
  apply String.eqb_eq in En. subst ty.
  apply Z.eqb_neq in E0, E1. auto.
Qed.

(** X2.  A box returned by [findBox] carries the name asked for; it starts
    inside the region, its 8-byte header lies inside the buffer, and its size
    is the 32-bit value read at its position, never 0 and never 1.  Nothing
    relates the end of the box to the end of the region or of the buffer. *)
Theorem findBox_found_invariants (b : buffer) (start end_ : Z) (name : string)
    (bx : Box) :
  findBox b start end_ name = Ok (Some bx) ->
  type bx = name
  /\ start <= offset bx < end_
  /\ 0 <= offset bx /\ offset bx + 8 <= byteLength b
  /\ 2 <= size bx < 4294967296
  /\ getUint32 b (offset bx) = Ok (size bx)
  /\ getString b (offset bx + 4) 4 = Ok name.
Proof.
  intros H. unfold findBox in H.
  pose proof (findBox_loop_found_offset _ _ _ _ _ _ H) as Hoff.
  apply findBox_loop_found_inv in H.
  destruct H as (Hty & Hsz & Hstr & H0 & H1).
  pose proof (getUint32_Ok _ _ _ Hsz) as R.
  pose proof (getString_4_Ok _ _ _ Hstr) as R'.
  repeat split; try assumption; lia.
Qed.

(** A movie box that declares 4096 bytes in a buffer of 8 is returned as it
    is declared. *)
Lemma findBox_found_invariants_witness :
  findBox (be32 4096 ++ list_byte_of_string "moov") 0 8 "moov"
    = Ok (Some (mkBox 0 4096 "moov"))
  /\ type (mkBox 0 4096 "moov") = "moov"%string.
Proof.
  assert (H : findBox (be32 4096 ++ list_byte_of_string "moov") 0 8 "moov"
              = Ok (Some (mkBox 0 4096 "moov"))) by reflexivity.
  split; [exact H|].
  exact (proj1 (findBox_found_invariants _ 0 8 "moov" _ H)).
Defined.

(** ** The scanner over complete units *)

Lemma find_box_app (name : string) (before rest : list (string * list byte)) :
  forall pos,
    Forall well_formed_box before ->
    find_box name before pos = None ->
    find_box name (before ++ rest) pos
    = find_box name rest (pos + Z.of_nat (List.length (encode_boxes before))).
Proof.
  induction before as [|[tag content] before IH]; intros pos Hwf Hn.
  - simpl. rewrite Z.add_0_r. reflexivity.
  - inversion Hwf as [|? ? [Htag _] Hwf']; subst. cbn [fst] in Htag.
    cbn [find_box app] in *.
    destruct (String.eqb tag name); [discriminate|].
    rewrite (IH _ Hwf' Hn). f_equal.
    change (encode_boxes ((tag, content) :: before))
      with (box_bytes tag content ++ encode_boxes before).
    rewrite length_app, Nat2Z.inj_add, (box_bytes_length tag content Htag).
    lia.
Qed.

Lemma find_box_none (name : string) (boxes : list (string * list byte)) :
  forall pos,
    Forall (fun bx => fst bx <> name) boxes -> find_box name boxes pos = None.
Proof.
  induction boxes as [|[tag content] boxes IH]; intros pos H; [reflexivity|].
  inversion H as [|? ? Hne H']; subst. cbn [fst] in Hne.
  cbn [find_box]. apply String.eqb_neq in Hne. rewrite Hne. apply IH. exact H'.
Qed.

Section UnitScan.

Variables Message Obj : Type.

Implicit Types (seiType : option (SeiType Message Obj)) (acc : list Obj).

(** A unit of declared length 0 or 1 lying at the cursor is passed over. *)
Lemma scan_short_unit (b : buffer) seiType (cursor end_ : Z) acc (unit : list byte) :
  cursor + 4 <= end_ ->
  bytes_at b cursor (unit_bytes (Z.of_nat (List.length unit)) unit) ->
  (List.length unit < 2)%nat ->
  scan b seiType cursor end_ acc
  = scan b seiType (cursor + 4 + Z.of_nat (List.length unit)) end_ acc.
Proof.
  intros Hle Hb Hlen.
  unfold unit_bytes in Hb. apply bytes_at_app in Hb. destruct Hb as [Hn _].
  rewrite scan_eq at 1. unfold sei_step.
  replace (cursor + 4 <=? end_) with true by (symmetry; apply Z.leb_le; lia).
  assert (Hu : uint32 (Z.of_nat (List.length unit))) by (unfold uint32; lia).
  rewrite (getUint32_be32 b cursor _ Hu Hn). cbn [bind].
  replace (Z.of_nat (List.length unit) <? 2) with true
    by (symmetry; apply Z.ltb_lt; lia).
  cbn [orb]. rewrite Z.max_l by lia. reflexivity.
Qed.

Lemma scan_units (b : buffer) seiType :
  forall units pos acc,
    Forall (fun u => uint32 (Z.of_nat (List.length u))) units ->
    bytes_at b pos (encode_units units) ->
    scan b seiType pos (pos + Z.of_nat (List.length (encode_units units))) acc
    = Ok (acc ++ decode_units seiType units).
Proof.
  induction units as [|u units IH]; intros pos acc Hwf Hb.
  - rewrite scan_eq. unfold sei_step. simpl.
    replace (pos + 4 <=? pos + 0) with false by (symmetry; apply Z.leb_gt; lia).
    rewrite app_nil_r. reflexivity.
  - inversion Hwf as [|? ? Hu Hwf']; subst.
    change (encode_units (u :: units))
      with (unit_bytes (Z.of_nat (List.length u)) u ++ encode_units units) in *.
    assert (Hlen : Z.of_nat (List.length (unit_bytes (Z.of_nat (List.length u)) u))
                   = 4 + Z.of_nat (List.length u)).
    { unfold unit_bytes. rewrite length_app.
      change (List.length (be32 (Z.of_nat (List.length u)))) with 4%nat. lia. }
    apply bytes_at_app in Hb. destruct Hb as [Hhere Hrest].
    rewrite Hlen in Hrest.
    rewrite length_app, Nat2Z.inj_add, Hlen.
    specialize (IH (pos + (4 + Z.of_nat (List.length u)))).
    replace (pos + (4 + Z.of_nat (List.length u) + Z.of_nat (List.length (encode_units units))))
      with (pos + (4 + Z.of_nat (List.length u))
            + Z.of_nat (List.length (encode_units units))) by lia.
    cbn [decode_units flat_map]. fold (decode_units seiType units).
    assert (Hle : pos + 4 <= pos + (4 + Z.of_nat (List.length u))
                              + Z.of_nat (List.length (encode_units units))) by lia.
    destruct (2 <=? List.length u)%nat eqn:E2.
    + apply Nat.leb_le in E2.
      rewrite (scan_unit _ _ b seiType pos _ acc u Hle Hhere E2 Hu).
      replace (pos + 4 + Z.of_nat (List.length u))
        with (pos + (4 + Z.of_nat (List.length u))) by lia.
      rewrite (IH _ Hwf' Hrest). cbn [andb].
      destruct (qualifies u); [|reflexivity].
      destruct (decodeSei u seiType); [|reflexivity].
      rewrite <- app_assoc. reflexivity.
    + apply Nat.leb_gt in E2.
      rewrite (scan_short_unit b seiType pos _ acc u Hle Hhere E2).
      replace (pos + 4 + Z.of_nat (List.length u))
        with (pos + (4 + Z.of_nat (List.length u))) by lia.
      rewrite (IH _ Hwf' Hrest). reflexivity.
Qed.

Lemma extractSeiMessages_complete (b : buffer)
    (seiType : option (SeiType Message Obj))
    (before : list (string * list byte)) (units : list (list byte)) :
  Forall well_formed_box before ->
  Forall (fun bx => fst bx <> "mdat"%string) before ->
  Forall (fun u => uint32 (Z.of_nat (List.length u))) units ->
  uint32 (8 + Z.of_nat (List.length (encode_units units))) ->
  bytes_at b 0 (encode_boxes before ++ box_bytes "mdat" (encode_units units)) ->
  extractSeiMessages b seiType = Ok (decode_units seiType units).
Proof.
  intros Hwf Hne Hu Hsize Hb.
  set (p := Z.of_nat (List.length (encode_boxes before))).
  assert (Hmdat : well_formed_box ("mdat"%string, encode_units units)).
  { split; [reflexivity | exact Hsize]. }
  assert (Hall : Forall well_formed_box (before ++ [("mdat"%string, encode_units units)])).
  { apply Forall_app. split; [exact Hwf | constructor; [exact Hmdat | constructor]]. }
  assert (Henc : encode_boxes (before ++ [("mdat"%string, encode_units units)])
                 = encode_boxes before ++ box_bytes "mdat" (encode_units units)).
  { unfold encode_boxes. rewrite flat_map_app. simpl. rewrite app_nil_r. reflexivity. }
  assert (Hfind : find_box "mdat" (before ++ [("mdat"%string, encode_units units)]) 0
                  = Some (mkBox p (8 + Z.of_nat (List.length (encode_units units))) "mdat")).
  { rewrite (find_box_app "mdat" before _ 0 Hwf (find_box_none "mdat" before 0 Hne)).
    reflexivity. }
  pose proof Hb as Hb'. apply bytes_at_app in Hb'. destruct Hb' as [_ Hbox].
  rewrite Z.add_0_l in Hbox. fold p in Hbox.
  destruct (bytes_at_box b p "mdat" _ eq_refl Hbox) as (Hsz & _ & Hcontent).
  destruct (bytes_at_rawByte b p _ 0 Hsz ltac:(simpl; lia)) as [_ Hin].
  change (Z.of_nat (List.length (be32 (8 + Z.of_nat (List.length (encode_units units))))))
    with 4 in Hin.
  rewrite <- Henc in Hb.
  unfold extractSeiMessages, getMdatInfo.
  rewrite (findBox_boxes_found b "mdat" (byteLength b) _ 0 _ Hall Hb Hfind
             ltac:(cbn [offset]; lia)).
  cbn [bind offset size].
  fold (scan b seiType (p + 8) (p + (8 + Z.of_nat (List.length (encode_units units)))) []).
  replace (p + (8 + Z.of_nat (List.length (encode_units units))))
    with (p + 8 + Z.of_nat (List.length (encode_units units))) by lia.
  rewrite (scan_units b seiType units (p + 8) [] Hu Hcontent). reflexivity.
Qed.

(** X3.  When the buffer begins with complete boxes none of which is tagged
    mdat, followed by an mdat box filled exactly by length-prefixed units,
    the scanner returns, in order, the decoded form of every unit of at least
    2 bytes whose first two bytes qualify and that decodes, and nothing else.
    Whatever follows that first mdat box in the buffer, a second mdat box
    included, plays no part. *)
Theorem extractSeiMessages_units (b : buffer)
    (seiType : option (SeiType Message Obj))
    (before : list (string * list byte)) (units : list (list byte)) :
  Forall well_formed_box before ->
  Forall (fun bx => fst bx <> "mdat"%string) before ->
  Forall (fun u => uint32 (Z.of_nat (List.length u))) units ->
  uint32 (8 + Z.of_nat (List.length (encode_units units))) ->
  bytes_at b 0 (encode_boxes before ++ box_bytes "mdat" (encode_units units)) ->
  extractSeiMessages b seiType = Ok (decode_units seiType units).
Proof. apply extractSeiMessages_complete. Qed.

(** Without a schema no unit yields a message. *)
Lemma sei_loop_no_schema (b : buffer) (end_ : Z) :
  forall fuel cursor acc l,
    sei_loop fuel b (@None (SeiType Message Obj)) cursor end_ acc = Ok l -> l = acc.
Proof.
  induction fuel as [|fuel IH]; intros cursor acc l; [discriminate|].
  rewrite sei_loop_step. unfold sei_step.
  destruct (cursor + 4 <=? end_); [|intros H; inversion H; reflexivity].
  destruct (getUint32 b cursor) as [n| |]; cbn [bind]; try discriminate.
  destruct ((n <? 2) || (cursor + 4 + n >? byteLength b)); [apply IH|].
  destruct (getUint8 b (cursor + 4)) as [b0| |]; cbn [bind]; try discriminate.
  destruct (getUint8 b (cursor + 4 + 1)) as [b1| |]; cbn [bind]; try discriminate.
  cbn [decodeSei]. destruct ((Z.land b0 31 =? 6) && (b1 =? 5)); apply IH.
Qed.

(** X4.  Called without a schema ([null] or [undefined]) the scanner still
    walks the whole box, but whenever it returns it returns no message. *)
Theorem extractSeiMessages_no_schema (b : buffer) (l : list Obj) :
  extractSeiMessages b (@None (SeiType Message Obj)) = Ok l -> l = [].
Proof.
  unfold extractSeiMessages.
  destruct (getMdatInfo b) as [[mdat|]| |]; cbn [bind]; try discriminate.
  - apply sei_loop_no_schema.
  - intros H. inversion H. reflexivity.
Qed.

End UnitScan.

Lemma extractSeiMessages_units_witness :
  extractSeiMessages
    (encode_boxes [("free"%string, [x00])]
     ++ box_bytes "mdat" (encode_units [[x00]; unit1; [x06; x05]; unit1])
     ++ box_bytes "mdat" (encode_units [unit1]))
    (Some idSchema)
  = Ok [payload1; payload1].
Proof.
  rewrite (extractSeiMessages_units _ _ _ (Some idSchema)
             [("free"%string, [x00])] [[x00]; unit1; [x06; x05]; unit1]).
  - reflexivity.
  - repeat constructor; discriminate.
  - repeat constructor; discriminate.
  - repeat constructor; discriminate.
  - split; [discriminate | reflexivity].
  - split; [discriminate | reflexivity].
Defined.

Lemma extractSeiMessages_no_schema_witness :
  extractSeiMessages file_ok (@None (SeiType (list byte) (list byte)))
  = Ok (@nil (list byte))
  /\ @nil (list byte) = [].
Proof.
  assert (H : extractSeiMessages file_ok (@None (SeiType (list byte) (list byte)))
              = Ok (@nil (list byte))) by (vm_compute; reflexivity).
  split; [exact H|].
  exact (extractSeiMessages_no_schema (list byte) (list byte) file_ok [] H).
Defined.

(** ** The stripper and the marker locator on what a writer produces *)

Lemma strip_length_le (data : list byte) :
  (List.length (stripEmulationBytes data) <= List.length data)%nat.
Proof.
  rewrite stripEmulationBytes_kept. unfold kept_bytes.
  rewrite length_map.
  pose proof (filter_length_le (fun i => negb (escaped data i))
                (seq 0 (List.length data))) as H.
  rewrite length_seq in H. exact H.
Qed.

Lemma escaped_after (pre : list byte) (x : byte) (rest : list byte) :
  escaped (pre ++ x :: rest) (List.length pre)
  = last_but_one_zero pre && last_zero pre && Byte.eqb x x03.
Proof.
  unfold last_but_one_zero, last_zero.
  destruct (rev pre) as [|c [|a rq]] eqn:E.
  - apply (f_equal (@rev byte)) in E. rewrite rev_involutive in E. subst pre.
    reflexivity.
  - apply (f_equal (@rev byte)) in E. rewrite rev_involutive in E. subst pre.
    reflexivity.
  - apply (f_equal (@rev byte)) in E. rewrite rev_involutive in E. subst pre.
    cbn [rev]. rewrite <- !app_assoc. cbn [app].
    rewrite !length_app. cbn [List.length].
    replace (List.length (rev rq) + 2)%nat with (S (S (List.length (rev rq)))) by lia.
    unfold escaped.
    rewrite (nth_error_app2 (rev rq) _ (n := List.length (rev rq))) by lia.
    rewrite (nth_error_app2 (rev rq) _ (n := S (List.length (rev rq)))) by lia.
    rewrite (nth_error_app2 (rev rq) _ (n := S (S (List.length (rev rq))))) by lia.
    rewrite Nat.sub_diag.
    replace (S (List.length (rev rq)) - List.length (rev rq))%nat with 1%nat by lia.
    replace (S (S (List.length (rev rq))) - List.length (rev rq))%nat with 2%nat by lia.
    reflexivity.
Qed.

Lemma last_zero_snoc (pre : list byte) (x : byte) :
  last_zero (pre ++ [x]) = Byte.eqb x x00
  /\ last_but_one_zero (pre ++ [x]) = last_zero pre.
Proof.
  unfold last_zero, last_but_one_zero. rewrite rev_app_distr. cbn [rev app].
  destruct (rev pre); split; reflexivity.
Qed.

Lemma kept_from_pass (l : list byte) :
  forall pre,
    map (fun j => nth j (pre ++ l) x00)
        (filter (fun j => negb (escaped (pre ++ l) j))
                (seq (List.length pre) (List.length l)))
    = strip_pass (last_but_one_zero pre) (last_zero pre) l.
Proof.
  induction l as [|x l IH]; intros pre; [reflexivity|].
  cbn [List.length seq filter strip_pass].
  rewrite escaped_after.
  specialize (IH (pre ++ [x])).
  rewrite <- app_assoc in IH. cbn [app] in IH.
  rewrite length_app in IH. cbn [List.length] in IH.
  rewrite Nat.add_1_r in IH.
  destruct (last_zero_snoc pre x) as [E1 E2]. rewrite E1, E2 in IH.
  destruct (last_but_one_zero pre && last_zero pre && Byte.eqb x x03);
    cbn [negb map].
  - exact IH.
  - rewrite IH. f_equal.
    rewrite app_nth2 by lia. rewrite Nat.sub_diag. reflexivity.
Qed.

Lemma stripEmulationBytes_pass (data : list byte) :
  stripEmulationBytes data = strip_pass false false data.
Proof.
  rewrite stripEmulationBytes_kept. exact (kept_from_pass data []).
Qed.

Lemma strip_pass_escape (data : list byte) :
  forall zeros z2 z1,
    (zeros <= 2)%nat ->
    z1 = (1 <=? zeros)%nat ->
    ((1 <= zeros)%nat -> z2 = (2 <=? zeros)%nat) ->
    strip_pass z2 z1 (escape_from zeros data) = data.
Proof.
  induction data as [|x data IH]; intros zeros z2 z1 Hz H1 H2; [reflexivity|].
  cbn [escape_from].
  destruct ((2 <=? zeros)%nat && (byteval x <=? 3)) eqn:Hins.
  - apply andb_true_iff in Hins. destruct Hins as [Hk Hx].
    apply Nat.leb_le in Hk. assert (zeros = 2%nat) by lia. subst zeros.
    rewrite (H2 ltac:(lia)) in *. subst z1.
    cbn [strip_pass Nat.leb andb].
    change (Byte.eqb x03 x03) with true. change (Byte.eqb x03 x00) with false.
    cbn [andb]. f_equal.
    apply IH; destruct (Byte.eqb x x00); try reflexivity; try lia;
      intros; try lia; reflexivity.
  - cbn [strip_pass].
    assert (Hkeep : z2 && z1 && Byte.eqb x x03 = false).
    { destruct (2 <=? zeros)%nat eqn:Hk.
      - cbn [andb] in Hins. apply Z.leb_gt in Hins.
        destruct (Byte.eqb x x03) eqn:E; [|apply andb_false_r].
        apply Byte.byte_dec_bl in E. subst x. vm_compute in Hins. discriminate.
      - apply Nat.leb_gt in Hk. subst z1.
        destruct (1 <=? zeros)%nat eqn:E1.
        + apply Nat.leb_le in E1. rewrite (H2 E1).
          replace (2 <=? zeros)%nat with false by (symmetry; apply Nat.leb_gt; lia).
          reflexivity.
        + rewrite andb_false_r. reflexivity. }
    rewrite Hkeep. f_equal.
    assert (Hzeros : (zeros < 2)%nat \/ Byte.eqb x x00 = false).
    { destruct (2 <=? zeros)%nat eqn:Hk; [|left; apply Nat.leb_gt in Hk; lia].
      right. cbn [andb] in Hins. apply Z.leb_gt in Hins.
      destruct (Byte.eqb x x00) eqn:E; [|reflexivity].
      apply Byte.byte_dec_bl in E. subst x. vm_compute in Hins. discriminate. }
    destruct (Byte.eqb x x00) eqn:E0.
    + destruct Hzeros as [Hlt|Hf]; [|discriminate].
      apply IH; [lia | reflexivity |].
      intros _. subst z1.
      destruct zeros as [|[|z]]; reflexivity.
    + apply IH; [lia | reflexivity | intros; lia].
Qed.

Lemma strip_escape_id (data : list byte) :
  stripEmulationBytes (emulation_prevention data) = data.
Proof.
  rewrite stripEmulationBytes_pass. unfold emulation_prevention.
  apply strip_pass_escape; [lia | reflexivity | intros; lia].
Qed.

(** X5.  The stripper undoes emulation prevention: for every byte sequence,
    stripping the sequence a writer obtains by inserting 0x03 after each pair
    of zero bytes that a byte of value 3 or less would follow gives the
    sequence back. *)
Theorem strip_undoes_emulation_prevention (data : list byte) :
  stripEmulationBytes (emulation_prevention data) = data.
Proof. apply strip_escape_id. Qed.

Lemma run42_repeat (k : nat) (x : byte) (rest : list byte) :
  Byte.eqb x x42 = false -> run42 (repeat x42 k ++ x :: rest) = k.
Proof.
  intros H. induction k as [|k IH]; cbn [repeat app run42].
  - rewrite H. reflexivity.
  - change (Byte.eqb x42 x42) with true. cbv iota. rewrite IH. reflexivity.
Qed.

Section WriterUnits.

Variables Message Obj : Type.

(** X6.  A unit built as a writer builds it (three leading bytes, at least
    one 0x42, the 0x69 marker, a payload of at least 4 bytes with emulation
    prevention applied, one trailing byte) decodes to what the schema makes
    of the payload itself, whatever the leading and trailing bytes are. *)
Theorem decodeSei_writer_unit (ty : SeiType Message Obj) (h0 h1 h2 : byte)
    (k : nat) (payload : list byte) (trailer : byte) :
  (1 <= k)%nat ->
  (4 <= List.length payload)%nat ->
  decodeSei (sei_unit_bytes h0 h1 h2 k payload trailer) (Some ty)
  = match decode ty payload with
    | Some message => Some (toObject ty message)
    | None => None
    end.
Proof.
  intros Hk Hp. rewrite decodeSei_located.
  set (nal := sei_unit_bytes h0 h1 h2 k payload trailer).
  assert (Hrun : marker_run nal = k).
  { unfold marker_run, nal, sei_unit_bytes. cbn [app skipn].
    apply run42_repeat. reflexivity. }
  assert (Hlen : List.length nal
                 = (3 + k + 1 + List.length (emulation_prevention payload) + 1)%nat).
  { unfold nal, sei_unit_bytes. rewrite !length_app, repeat_length.
    cbn [List.length]. lia. }
  assert (Hsplit : nal = ([h0; h1; h2] ++ repeat x42 k)
                         ++ x69 :: emulation_prevention payload ++ [trailer]).
  { unfold nal, sei_unit_bytes. rewrite <- app_assoc. reflexivity. }
  assert (Hpre : List.length ([h0; h1; h2] ++ repeat x42 k) = (3 + k)%nat).
  { rewrite length_app, repeat_length. reflexivity. }
  assert (Hmark : marker_follows nal = true).
  { unfold marker_follows. rewrite Hrun, Hsplit.
    rewrite nth_error_app2 by lia. rewrite Hpre, Nat.sub_diag. reflexivity. }
  assert (Hcand : candidate nal = emulation_prevention payload).
  { unfold candidate. rewrite Hrun, Hlen, Hsplit.
    rewrite skipn_app, Hpre.
    rewrite (skipn_all2 (n := 3 + k + 1) ([h0; h1; h2] ++ repeat x42 k)) by lia.
    replace (3 + k + 1 - (3 + k))%nat with 1%nat by lia.
    cbn [skipn app].
    replace (3 + k + 1 + List.length (emulation_prevention payload) + 1 - 1
             - (3 + k + 1))%nat
      with (List.length (emulation_prevention payload)) by lia.
    rewrite firstn_app, firstn_all, Nat.sub_diag. cbn [firstn].
    apply app_nil_r. }
  unfold located_payload.
  rewrite Hrun, Hmark, Hcand, strip_escape_id.
  replace (0 <? k)%nat with true by (symmetry; apply Nat.ltb_lt; lia).
  replace (List.length payload <? 4)%nat with false
    by (symmetry; apply Nat.ltb_ge; lia).
  reflexivity.
Qed.

(** X7.  A unit decodes only if it is at least 10 bytes long and its byte at
    index 3 is 0x42; the decoder is then handed between 4 and the unit's
    length minus 6 bytes, and what is returned is the object made from the
    decoder's message. *)
Theorem decodeSei_some (ty : SeiType Message Obj) (nal : list byte) (r : Obj) :
  decodeSei nal (Some ty) = Some r ->
  (10 <= List.length nal)%nat
  /\ nth_error nal 3 = Some x42
  /\ exists p message,
       (4 <= List.length p <= List.length nal - 6)%nat
       /\ decode ty p = Some message
       /\ r = toObject ty message.
Proof.
  rewrite decodeSei_located.
  destruct (located_payload nal) as [p|] eqn:E; [|discriminate].
  apply located_payload_iff in E. destruct E as (Hrun & Hmark & Hp & H4).
  destruct (decode ty p) as [message|] eqn:Hd; [|discriminate].
  intros H. inversion H; subst r.
  assert (Hlen : (List.length p <= List.length nal - 1 - (3 + marker_run nal + 1))%nat).
  { rewrite Hp. etransitivity; [apply strip_length_le|].
    unfold candidate. rewrite length_firstn. lia. }
  assert (H3 : nth_error nal 3 = Some x42).
  { unfold marker_run in Hrun.
    destruct (skipn 3 nal) as [|x rest] eqn:Es; [simpl in Hrun; lia|].
    apply skipn_cons_inv in Es. destruct Es as (Es & _ & _).
    cbn [run42] in Hrun. destruct (Byte.eqb x x42) eqn:Ex; [|lia].
    apply Byte.byte_dec_bl in Ex. subst x. exact Es. }
  split; [lia|]. split; [exact H3|].
  exists p, message. repeat split; try assumption; lia.
Qed.

End WriterUnits.

(** A payload that needs an inserted 0x03 comes back unchanged. *)
Lemma decodeSei_writer_unit_witness :
  decodeSei (sei_unit_bytes x06 x05 x00 2 [x00; x00; x01; x08] x80)
    (Some idSchema)
  = Some [x00; x00; x01; x08].
Proof.
  rewrite (decodeSei_writer_unit _ _ idSchema x06 x05 x00 2
             [x00; x00; x01; x08] x80).
  - reflexivity.
  - lia.
  - simpl. lia.
Defined.

Lemma decodeSei_some_witness :
  (10 <= List.length unit1)%nat /\ nth_error unit1 3 = Some x42.
Proof.
  destruct (decodeSei_some _ _ idSchema unit1 payload1 eq_refl) as (A & B & _).
  split; [exact A | exact B].
Defined.

(** ** The Timing Extractor on a complete timing path *)

Lemma box_length_nat (tag : string) (content : list byte) :
  String.length tag = 4%nat ->
  List.length (box_bytes tag content) = (8 + List.length content)%nat.
Proof.
  intros H. pose proof (box_bytes_length tag content H). lia.
Qed.

Lemma findBox_here (b : buffer) (off end_ : Z) (tag : string) (content : list byte) :
  String.length tag = 4%nat ->
  uint32 (8 + Z.of_nat (List.length content)) ->
  off < end_ ->
  bytes_at b off (box_bytes tag content) ->
  findBox b off end_ tag
  = Ok (Some (mkBox off (8 + Z.of_nat (List.length content)) tag)).
Proof.
  intros Htag Hsz Hlt H.
  rewrite (findBox_at_box b off end_ tag tag content Hlt (conj Htag Hsz) H).
  rewrite String.eqb_refl. reflexivity.
Qed.








(** X9.  Only the first track is examined: when the first track box of the
    movie box is made of complete boxes none of which is a media box, the
    extractor returns not-found whatever follows that track inside the movie
    box, a second track with a complete timing path included. *)
Theorem first_track_only (b : buffer) (children : list (string * list byte))
    (rest : list byte) :
  Forall well_formed_box children ->
  Forall (fun bx => fst bx <> "mdia"%string) children ->
  uint32 (8 + Z.of_nat (List.length
            (box_bytes "trak" (encode_boxes children) ++ rest))) ->
  bytes_at b 0 (box_bytes "moov" (box_bytes "trak" (encode_boxes children) ++ rest)) ->
  getTimescaleAndDurations b = Ok None.
Proof.
  intros Hwf Hne Hsize Hb.
  remember (encode_boxes children) as c1 eqn:Ec1.
  remember (box_bytes "trak" c1 ++ rest) as c0 eqn:Ec0.
  assert (L1 : List.length (box_bytes "trak" c1) = (8 + List.length c1)%nat)
    by (apply box_length_nat; reflexivity).
  assert (L0 : List.length c0 = (8 + List.length c1 + List.length rest)%nat)
    by (subst c0; rewrite length_app; lia).
  unfold uint32 in Hsize.
  destruct (bytes_at_rawByte b 0 _ 0 Hb
              ltac:(rewrite (box_length_nat "moov" c0 eq_refl); lia)) as [_ Hlen].
  rewrite (box_length_nat "moov" c0 eq_refl) in Hlen.
  destruct (bytes_at_box b 0 "moov" c0 eq_refl Hb) as (_ & _ & B0).
  rewrite Ec0 in B0. apply bytes_at_app in B0. destruct B0 as [B0 _].
  destruct (bytes_at_box b (0 + 8) "trak" c1 eq_refl B0) as (_ & _ & B1).
  assert (U0 : uint32 (8 + Z.of_nat (List.length c0))) by (unfold uint32; lia).
  assert (U1 : uint32 (8 + Z.of_nat (List.length c1))) by (unfold uint32; lia).
  assert (P0 : 0 < byteLength b) by lia.
  unfold getTimescaleAndDurations.
  rewrite (findBox_here b 0 (byteLength b) "moov" c0 eq_refl U0 P0 Hb).
  cbn [bind offset size].
  rewrite (findBox_here b (0 + 8) _ "trak" c1 eq_refl U1) by (try lia; assumption).
  cbn [bind offset size].
  rewrite Ec1 in B1.
  rewrite (findBox_boxes_none b "mdia" _ children (0 + 8 + 8) Hwf B1
             (find_box_none "mdia" children _ Hne)).
  - reflexivity.
  - rewrite <- Ec1. lia.
Qed.

Lemma first_track_only_witness :
  getTimescaleAndDurations
    (box_bytes "moov"
       (box_bytes "trak" (encode_boxes [("tkhd"%string, [x00])])
        ++ box_bytes "trak"
             (box_bytes "mdia"
                (box_bytes "mdhd" (mdhd_content_v0 90000)))))
  = Ok None.
Proof.
  apply (first_track_only _ [("tkhd"%string, [x00])]
           (box_bytes "trak"
              (box_bytes "mdia" (box_bytes "mdhd" (mdhd_content_v0 90000))))).
  - repeat constructor; discriminate.
  - repeat constructor; discriminate.
  - split; [discriminate | reflexivity].
  - split; [discriminate | reflexivity].
Defined.

(** ** What every timing returned satisfies *)

Lemma Forall_uint32_repeat (x : Z) (n : nat) :
  uint32 x -> Forall uint32 (repeat x n).
Proof.
  intros H. induction n as [|n IH]; simpl; constructor; assumption.
Qed.

Lemma stts_loop_uint32 (b : buffer) :
  forall n pos acc l,
    stts_loop b n pos acc = Ok l -> Forall uint32 acc -> Forall uint32 l.
Proof.
  induction n as [|n IH]; intros pos acc l H Hacc.
  - inversion H; subst. exact Hacc.
  - cbn [stts_loop] in H.
    destruct (getUint32 b pos) as [c| |] eqn:Hc; cbn [bind] in H; try discriminate.
    destruct (getUint32 b (pos + 4)) as [d| |] eqn:Hd; cbn [bind] in H;
      try discriminate.
    apply (IH _ _ _ H). rewrite push_times_app. apply Forall_app. split.
    + exact Hacc.
    + apply Forall_uint32_repeat. apply getUint32_Ok in Hd. exact (proj2 (proj2 Hd)).
Qed.

(** The table must lie inside the buffer for the loop to return. *)
Lemma stts_loop_Ok_inside (b : buffer) :
  forall n pos acc l,
    stts_loop b n pos acc = Ok l -> (0 < n)%nat ->
    0 <= pos /\ pos + 8 * Z.of_nat n <= byteLength b.
Proof.
  induction n as [|n IH]; intros pos acc l H Hn; [lia|].
  cbn [stts_loop] in H.
  destruct (getUint32 b pos) as [c| |] eqn:Hc; cbn [bind] in H; try discriminate.
  destruct (getUint32 b (pos + 4)) as [d| |] eqn:Hd; cbn [bind] in H;
    try discriminate.
  apply getUint32_Ok in Hc, Hd.
  destruct n as [|n]; [lia|].
  apply IH in H; lia.
Qed.

Lemma durations_from_uint32 (b : buffer) (mdia : Box) (ts : Z) (t : TrackTiming) :
  durations_from b mdia ts = Ok (Some t) -> Forall uint32 (durations t).
Proof.
  unfold durations_from.
  destruct (findBox b (offset mdia + 8) (offset mdia + size mdia) "minf")
    as [[minf|]| |]; cbn [bind]; try discriminate;
    [|intros H; inversion H; constructor].
  destruct (findBox b (offset minf + 8) (offset minf + size minf) "stbl")
    as [[stbl|]| |]; cbn [bind]; try discriminate;
    [|intros H; inversion H; constructor].
  destruct (findBox b (offset stbl + 8) (offset stbl + size stbl) "stts")
    as [[stts|]| |]; cbn [bind]; try discriminate;
    [|intros H; inversion H; constructor].
  destruct (getUint32 b (offset stts + 8 + 4)) as [n| |]; cbn [bind];
    try discriminate.
  destruct (stts_loop b (Z.to_nat n) (offset stts + 8 + 8) []) as [ds| |] eqn:E;
    cbn [bind]; try discriminate.
  intros H; inversion H; subst. cbn [durations].
  apply (stts_loop_uint32 b _ _ _ _ E). constructor.
Qed.

Lemma timing_uint32 (b : buffer) (t : TrackTiming) :
  getTimescaleAndDurations b = Ok (Some t) ->
  uint32 (timescale t) /\ Forall uint32 (durations t).
Proof.
  unfold getTimescaleAndDurations.
  destruct (findBox b 0 (byteLength b) "moov") as [[moov|]| |];
    cbn [bind]; try discriminate.
  destruct (findBox b (offset moov + 8) (offset moov + size moov) "trak")
    as [[trak|]| |]; cbn [bind]; try discriminate.
  destruct (findBox b (offset trak + 8) (offset trak + size trak) "mdia")
    as [[mdia|]| |]; cbn [bind]; try discriminate.
  destruct (findBox b (offset mdia + 8) (offset mdia + size mdia) "mdhd")
    as [[mdhd|]| |]; cbn [bind]; try discriminate.
  destruct (getUint8 b (offset mdhd + 8)) as [version| |]; cbn [bind];
    try discriminate.
  destruct (if version =? 0 then getUint32 b (offset mdhd + 8 + 12)
            else getUint32 b (offset mdhd + 8 + 20)) as [ts| |] eqn:Hts;
    cbn [bind]; try discriminate.
  intros H. change (durations_from b mdia ts = Ok (Some t)) in H.
  assert (Hu : uint32 ts).
  { destruct (version =? 0); apply getUint32_Ok in Hts; exact (proj2 (proj2 Hts)). }
  split.
  - destruct (durations_from_Ok b mdia ts _ H) as (t' & E & Et).
    inversion E; subst t'. rewrite Et. exact Hu.
  - apply (durations_from_uint32 b mdia ts t H).
Qed.

(** X10.  Whatever the buffer holds, a timing that is returned has a
    timescale and durations that are 32-bit unsigned values: no negative and
    no fractional tick count can come out of the extractor. *)
Theorem timing_values_uint32 (b : buffer) (t : TrackTiming) :
  getTimescaleAndDurations b = Ok (Some t) ->
  uint32 (timescale t) /\ Forall uint32 (durations t).
Proof. apply timing_uint32. Qed.

Lemma timing_values_uint32_witness :
  uint32 (timescale (mkTiming 90000 [3000; 3000]))
  /\ Forall uint32 (durations (mkTiming 90000 [3000; 3000])).
Proof.
  exact (timing_values_uint32 file_ok (mkTiming 90000 [3000; 3000]) eq_refl).
Defined.

(** X11.  A time-to-sample table that declares more entries than the buffer
    holds makes the extractor raise [RangeError]: the durations read before
    the end of the buffer are not returned. *)
Theorem truncated_table_raises (b : buffer) (mdia mdhd stts : Box)
    (version ts entryCount : Z) :
  header_chain b mdia mdhd ->
  getUint8 b (offset mdhd + 8) = Ok version ->
  getUint32 b (offset mdhd + 8 + (if version =? 0 then 12 else 20)) = Ok ts ->
  stts_found b mdia stts ->
  getUint32 b (offset stts + 8 + 4) = Ok entryCount ->
  0 < entryCount ->
  byteLength b < offset stts + 16 + 8 * entryCount ->
  getTimescaleAndDurations b = Throw RangeError.
Proof.
  intros Hc Hv Hts (minf & stbl & H1 & H2 & H3) Hn Hpos Hcut.
  rewrite (timing_with_timescale b mdia mdhd version ts Hc Hv Hts).
  unfold durations_from.
  rewrite H1. cbn [bind]. rewrite H2. cbn [bind]. rewrite H3. cbn [bind].
  rewrite Hn. cbn [bind].
  pose proof (stts_loop_raises b (Z.to_nat entryCount) (offset stts + 8 + 8) [])
    as R.
  destruct (stts_loop b (Z.to_nat entryCount) (offset stts + 8 + 8) [])
    as [l|e|] eqn:E; cbn [bind raises_only_RangeError] in *.
  - apply stts_loop_Ok_inside in E; lia.
  - subst e. reflexivity.
  - contradiction.
Qed.

Lemma truncated_table_raises_witness :
  getTimescaleAndDurations file_stts_short = Throw RangeError.
Proof.
  apply (truncated_table_raises file_stts_short (mkBox 16 80 "mdia")
           (mkBox 24 32 "mdhd") (mkBox 72 24 "stts") 0 90000 3).
  - exists (mkBox 0 96 "moov"), (mkBox 8 88 "trak"). repeat split; reflexivity.
  - reflexivity.
  - reflexivity.
  - exists (mkBox 56 40 "minf"), (mkBox 64 32 "stbl"). repeat split; reflexivity.
  - reflexivity.
  - reflexivity.
  - reflexivity.
Defined.

(** ** The timestamps of any file *)

Lemma ticks_before_le (ds : list Z) :
  Forall uint32 ds ->
  forall i j, (i <= j)%nat -> 0 <= ticks_before ds i <= ticks_before ds j.
Proof.
  unfold ticks_before, uint32.
  induction 1 as [|d rest Hd Hrest IH]; intros i j Hij.
  - rewrite !firstn_nil. simpl. lia.
  - destruct i as [|i]; destruct j as [|j]; try lia;
      cbn [firstn sumZ fold_right].
    + lia.
    + specialize (IH 0%nat j ltac:(lia)). unfold sumZ in IH.
      cbn [firstn fold_right] in IH. lia.
    + specialize (IH i j ltac:(lia)). unfold sumZ in IH. lia.
Qed.

Lemma quotient_le (a c ts : Z) :
  0 < ts -> 0 <= a <= c ->
  (0 <= Qred (inject_Z a / inject_Z ts)
   /\ Qred (inject_Z a / inject_Z ts) <= Qred (inject_Z c / inject_Z ts))%Q.
Proof.
  intros Hts Hac.
  assert (Hinv : (0 < / inject_Z ts)%Q).
  { apply Qinv_lt_0_compat. change (inject_Z 0 < inject_Z ts)%Q.
    rewrite <- Zlt_Qlt. exact Hts. }
  split.
  - rewrite Qred_correct. unfold Qdiv.
    apply Qmult_le_0_compat; [|apply Qlt_le_weak; exact Hinv].
    change (inject_Z 0 <= inject_Z a)%Q. rewrite <- Zle_Qle. lia.
  - rewrite !Qred_correct. unfold Qdiv.
    apply Qmult_le_compat_r; [|apply Qlt_le_weak; exact Hinv].
    rewrite <- Zle_Qle. lia.
Qed.

(** X12.  The timestamps built from any timing the extractor returns: with a
    timescale of 0 nothing is raised, and each timestamp is NaN while the
    cumulative tick count is 0 and positive infinity afterwards; with any
    other timescale every timestamp is a non-negative number and the
    sequence never decreases. *)
Theorem timestamps_of_any_file (b : buffer) (t : TrackTiming) :
  getTimescaleAndDurations b = Ok (Some t) ->
  List.length (buildTimestamps t) = List.length (durations t)
  /\ (timescale t = 0 ->
      forall k, (k < List.length (durations t))%nat ->
        nth k (buildTimestamps t) NaN
        = if ticks_before (durations t) k =? 0 then NaN else Infinity false)
  /\ (timescale t <> 0 ->
      forall i j, (i <= j < List.length (durations t))%nat ->
        exists qi qj,
          nth i (buildTimestamps t) NaN = Finite qi
          /\ nth j (buildTimestamps t) NaN = Finite qj
          /\ (0 <= qi /\ qi <= qj)%Q).
Proof.
  intros H. apply timing_uint32 in H. destruct H as [Hts Hds].
  split; [|split].
  - unfold buildTimestamps. rewrite timestamps_loop_spec.
    cbn [app]. rewrite length_map, length_seq. reflexivity.
  - intros E k Hk. rewrite buildTimestamps_nth by exact Hk.
    rewrite E. unfold divide. cbn [Z.eqb].
    destruct (ticks_before (durations t) k =? 0) eqn:E0; [reflexivity|].
    pose proof (ticks_before_le _ Hds 0%nat k ltac:(lia)) as P.
    replace (ticks_before (durations t) k <? 0) with false
      by (symmetry; apply Z.ltb_ge; lia).
    reflexivity.
  - intros Hne i j Hij.
    assert (Hpos : 0 < timescale t) by (unfold uint32 in Hts; lia).
    exists (Qred (inject_Z (ticks_before (durations t) i) / inject_Z (timescale t))),
           (Qred (inject_Z (ticks_before (durations t) j) / inject_Z (timescale t))).
    rewrite !buildTimestamps_nth by lia.
    rewrite !divide_finite by exact Hpos.
    split; [reflexivity|]. split; [reflexivity|].
    apply quotient_le; [exact Hpos|].
    apply ticks_before_le; [exact Hds | lia].
Qed.

Lemma timestamps_of_any_file_witness :
  List.length (buildTimestamps (mkTiming 90000 [3000; 3000])) = 2%nat.
Proof.
  exact (proj1 (timestamps_of_any_file file_ok (mkTiming 90000 [3000; 3000]) eq_refl)).
Defined.

(** ** A complete file, end to end *)

Section CompleteFile.

Variables Message Obj : Type.


End CompleteFile.


(** ** [getString] for any length *)

Lemma string_append_assoc (a b c : string) :
  ((a ++ b) ++ c = a ++ (b ++ c))%string.
Proof. induction a as [|x a IH]; simpl; [reflexivity | rewrite IH; reflexivity]. Qed.

Lemma string_append_nil_r (a : string) : (a ++ "" = a)%string.
Proof. induction a as [|x a IH]; simpl; [reflexivity | rewrite IH; reflexivity]. Qed.

Lemma fromCharCode_byteval (x : byte) :
  fromCharCode (byteval x) = String (ascii_of_byte x) EmptyString.
Proof.
  unfold fromCharCode, byteval. rewrite N2Z.id, <- ascii_of_byte_via_N.
  reflexivity.
Qed.

Lemma getString_loop_read (b : buffer) (off : Z) :
  forall l i str,
    bytes_at b (off + i) l ->
    getString_loop b off (List.length l) i str
    = Ok (str ++ string_of_list_byte l)%string.
Proof.
  induction l as [|x l IH]; intros i str H.
  - simpl. rewrite string_append_nil_r. reflexivity.
  - cbn [List.length getString_loop].
    pose proof (getUint8_bytes_at b (off + i) (x :: l) 0 H ltac:(simpl; lia)) as E.
    change (Z.of_nat 0) with 0 in E. rewrite Z.add_0_r in E.
    rewrite E. cbn [bind nth].
    change (x :: l) with ([x] ++ l) in H. apply bytes_at_app in H.
    destruct H as [_ H]. change (Z.of_nat (List.length [x])) with 1 in H.
    replace (off + i + 1) with (off + (i + 1)) in H by lia.
    rewrite (IH (i + 1) _ H), fromCharCode_byteval, string_append_assoc.
    reflexivity.
Qed.

Lemma getString_loop_out (b : buffer) (off : Z) :
  forall n i str,
    (0 < n)%nat ->
    off + i < 0 \/ byteLength b < off + i + Z.of_nat n ->
    getString_loop b off n i str = Throw RangeError.
Proof.
  induction n as [|n IH]; intros i str Hn Hout; [lia|].
  cbn [getString_loop].
  destruct (getUint8 b (off + i)) as [c|e|] eqn:E; cbn [bind].
  - apply getUint8_Ok in E.
    destruct n as [|n]; [lia|].
    apply IH; lia.
  - pose proof (getUint8_raises b (off + i)) as R. rewrite E in R.
    simpl in R. subst e. reflexivity.
  - pose proof (getUint8_raises b (off + i)) as R. rewrite E in R.
    contradiction.
Qed.

(** X14.  [getString(offset, length)] returns the characters whose codes are
    the [length] bytes at [offset] when those bytes lie inside the buffer,
    so that it reads back any string written there byte by byte; it raises
    [RangeError] when a positive number of bytes is asked for and they do not
    all lie inside the buffer; and it returns the empty string for a length
    of 0 or less, whatever the offset. *)
Theorem getString_spec (b : buffer) (off : Z) :
  (forall l, bytes_at b off l ->
             getString b off (Z.of_nat (List.length l)) = Ok (string_of_list_byte l))
  /\ (forall s, bytes_at b off (list_byte_of_string s) ->
                getString b off (Z.of_nat (String.length s)) = Ok s)
  /\ (forall n, 0 < n -> off < 0 \/ byteLength b < off + n ->
                getString b off n = Throw RangeError)
  /\ (forall n, n <= 0 -> getString b off n = Ok EmptyString).
Proof.
  assert (Hread : forall l, bytes_at b off l ->
            getString b off (Z.of_nat (List.length l)) = Ok (string_of_list_byte l)).
  { intros l H. unfold getString. rewrite Nat2Z.id.
    rewrite (getString_loop_read b off l 0 EmptyString); [reflexivity|].
    rewrite Z.add_0_r. exact H. }
  split; [exact Hread|]. split; [|split].
  - intros s H. rewrite <- (list_byte_of_string_length s), (Hread _ H).
    rewrite string_of_list_byte_of_string. reflexivity.
  - intros n Hn Hout. unfold getString.
    apply getString_loop_out; [lia|]. rewrite Z2Nat.id by lia. lia.
  - intros n Hn. unfold getString.
    replace (Z.to_nat n) with 0%nat by lia. reflexivity.
Qed.

Lemma getString_spec_witness :
  getString file_ok 12 4 = Ok "trak"%string
  /\ getString file_ok 116 4 = Throw RangeError.
Proof.
  destruct (getString_spec file_ok 12) as (_ & H & _).
  destruct (getString_spec file_ok 116) as (_ & _ & T & _).
  split.
  - apply (H "trak"%string). split; [discriminate | reflexivity].
  - apply T; [reflexivity | right; reflexivity].
Defined.


(** ** The camera label *)

Lemma string_map_app (f : ascii -> ascii) (a b : string) :
  string_map f (a ++ b) = (string_map f a ++ string_map f b)%string.
Proof. induction a as [|x a IH]; simpl; [reflexivity | rewrite IH; reflexivity]. Qed.

Lemma normalize_app (a b : string) :
  normalize (a ++ b) = (normalize a ++ normalize b)%string.
Proof.
  unfold normalize, replace_separators, toLowerCase.
  rewrite !string_map_app. reflexivity.
Qed.

Lemma occurs_app (c : ascii) (a b : string) :
  occurs c (a ++ b) = occurs c a || occurs c b.
Proof.
  induction a as [|x a IH]; simpl; [reflexivity|].
  rewrite IH, orb_assoc. reflexivity.
Qed.

(** A pattern that matches needs each of its literal characters in the
    string. *)
Lemma match_here_occurs (c : ascii) :
  forall atoms prev s,
    match_here atoms prev s = true -> In (Chr c) atoms -> occurs c s = true.
Proof.
  induction atoms as [|a rest IH]; intros prev s Hm Hin; [contradiction|].
  destruct a as [x| |].
  - cbn [match_here] in Hm. destruct s as [|y r]; [discriminate|].
    apply andb_true_iff in Hm. destruct Hm as [Hy Hr].
    cbn [occurs]. destruct Hin as [E|Hin].
    + inversion E; subst x. rewrite Hy. reflexivity.
    + rewrite (IH _ _ Hr Hin). apply orb_true_r.
  - destruct Hin as [E|Hin]; [discriminate|].
    revert prev Hm. induction s as [|y r IHs]; intros prev Hm.
    + cbn [match_here] in Hm. rewrite orb_false_r in Hm.
      apply (IH _ _ Hm Hin).
    + cbn [match_here] in Hm. apply orb_true_iff in Hm.
      destruct Hm as [Hm|Hm]; [apply (IH _ _ Hm Hin)|].
      apply andb_true_iff in Hm. destruct Hm as [_ Hm].
      cbn [occurs]. rewrite (IHs (Some y) Hm). apply orb_true_r.
  - destruct Hin as [E|Hin]; [discriminate|].
    cbn [match_here] in Hm. apply andb_true_iff in Hm. destruct Hm as [_ Hm].
    apply (IH _ _ Hm Hin).
Qed.

Lemma search_occurs (c : ascii) (atoms : list atom) :
  forall s prev,
    search atoms prev s = true -> In (Chr c) atoms -> occurs c s = true.
Proof.
  induction s as [|y r IH]; intros prev Hs Hin.
  - cbn [search] in Hs. rewrite orb_false_r in Hs.
    apply (match_here_occurs c _ _ _ Hs Hin).
  - cbn [search] in Hs. apply orb_true_iff in Hs. destruct Hs as [Hs|Hs].
    + apply (match_here_occurs c _ _ _ Hs Hin).
    + cbn [occurs]. rewrite (IH _ Hs Hin). apply orb_true_r.
Qed.

Lemma test_needs (c : ascii) (atoms : list atom) (s : string) :
  In (Chr c) atoms -> occurs c s = false -> test atoms s = false.
Proof.
  intros Hin Hc. unfold test.
  destruct (search atoms None s) eqn:E; [|reflexivity].
  rewrite (search_occurs c atoms s None E Hin) in Hc. discriminate.
Qed.

(** A match after a prefix is found by the search. *)
Lemma search_after (atoms : list atom) (s : string) :
  forall pre prev,
    match_here atoms (last_char pre prev) s = true ->
    search atoms prev (pre ++ s) = true.
Proof.
  induction pre as [|x pre IH]; intros prev H.
  - cbn [last_char append] in *. destruct s; cbn [search]; rewrite H; reflexivity.
  - cbn [last_char append search] in *. rewrite (IH _ H). apply orb_true_r.
Qed.

Lemma last_char_app (a b : string) (prev : option ascii) :
  last_char (a ++ b) prev = last_char b (last_char a prev).
Proof. revert prev. induction a as [|x a IH]; intros prev; simpl; [reflexivity | apply IH]. Qed.

Lemma first_label_skip (c : ascii) (atoms : list atom) (label : string)
    (rest : list (list atom * string)) (s : string) :
  In (Chr c) atoms -> occurs c s = false ->
  first_label ((atoms, label) :: rest) s = first_label rest s.
Proof.
  intros Hin Hc. cbn [first_label]. rewrite (test_needs c atoms s Hin Hc).
  reflexivity.
Qed.

Lemma stamp_char_normal (x : ascii) :
  stamp_char x = true ->
  digit_or_space (separator_to_space (toLowerCase_char x)) = true.
Proof.
  destruct x as [[] [] [] [] [] [] [] []]; vm_compute; intros H;
    try discriminate H; reflexivity.
Qed.

Lemma normalize_stamp (ts : string) :
  all_chars stamp_char ts = true ->
  all_chars digit_or_space (normalize ts) = true.
Proof.
  induction ts as [|x ts IH]; [reflexivity|].
  cbn [all_chars]. intros H. apply andb_true_iff in H. destruct H as [Hx Hts].
  change (normalize (String x ts))
    with (String (separator_to_space (toLowerCase_char x)) (normalize ts)).
  cbn [all_chars]. rewrite (stamp_char_normal x Hx), (IH Hts). reflexivity.
Qed.

Lemma occurs_outside (p : ascii -> bool) (c : ascii) (s : string) :
  all_chars p s = true -> p c = false -> occurs c s = false.
Proof.
  intros Hs Hc. induction s as [|x s IH]; [reflexivity|].
  cbn [all_chars] in Hs. apply andb_true_iff in Hs. destruct Hs as [Hx Hs].
  cbn [occurs]. rewrite (IH Hs), orb_false_r.
  destruct (Ascii.eqb x c) eqn:E; [|reflexivity].
  apply Ascii.eqb_eq in E. subst x. congruence.
Qed.

(** No letter occurs in the normalised stamp followed by [tail], unless it
    occurs in [tail]. *)
Lemma occurs_stamp (c : ascii) (ts tail : string) :
  all_chars stamp_char ts = true ->
  digit_or_space c = false ->
  occurs c tail = false ->
  occurs c (normalize ts ++ tail) = false.
Proof.
  intros Hts Hc Ht. rewrite occurs_app, Ht, orb_false_r.
  apply (occurs_outside digit_or_space); [apply normalize_stamp; exact Hts | exact Hc].
Qed.

Lemma test_after_stamp (atoms : list atom) (ts gap tail : string) :
  (forall prev, match_here atoms (last_char gap prev) tail = true) ->
  test atoms (normalize ts ++ gap ++ tail) = true.
Proof.
  intros H. unfold test.
  rewrite <- string_append_assoc.
  apply search_after. rewrite last_char_app. apply H.
Qed.

Ltac skip_pattern c :=
  rewrite (first_label_skip c);
  [ | cbn; tauto
    | apply occurs_stamp; [assumption | reflexivity | reflexivity] ].

Ltac hit_pattern gap tail :=
  cbn [first_label];
  rewrite (test_after_stamp _ _ gap tail); [reflexivity | intros prev; reflexivity].

(** X15.  Clip names as the car writes them: for every date and time part
    made of digits, hyphens and underscores, the name ending in
    [-front.mp4], [-back.mp4], [-left_repeater.mp4], [-right_repeater.mp4],
    [-left_pillar.mp4] or [-right_pillar.mp4] gets the label Front, Back,
    Left Repeater, Right Repeater, Left Pillar or Right Pillar, and the name
    made of that part and [.mp4] alone gets no label, shown as Unknown. *)
Theorem clip_name_labels (ts : string) :
  all_chars stamp_char ts = true ->
  detectCameraSource (ts ++ "-front.mp4") = Some "Front"%string
  /\ detectCameraSource (ts ++ "-back.mp4") = Some "Back"%string
  /\ detectCameraSource (ts ++ "-left_repeater.mp4") = Some "Left Repeater"%string
  /\ detectCameraSource (ts ++ "-right_repeater.mp4") = Some "Right Repeater"%string
  /\ detectCameraSource (ts ++ "-left_pillar.mp4") = Some "Left Pillar"%string
  /\ detectCameraSource (ts ++ "-right_pillar.mp4") = Some "Right Pillar"%string
  /\ detectCameraSource (ts ++ ".mp4") = None
  /\ (forall b, videoLabel (mkFile (ts ++ ".mp4") b) = "Unknown"%string).
Proof.
  intros Hts.
  assert (Hnone : detectCameraSource (ts ++ ".mp4") = None).
  { unfold detectCameraSource. fold (normalize (ts ++ ".mp4")).
    rewrite normalize_app.
    change (normalize ".mp4") with ".mp4"%string. unfold patterns.
    skip_pattern "l"%char. skip_pattern "g"%char. skip_pattern "l"%char.
    skip_pattern "g"%char. skip_pattern "l"%char. skip_pattern "g"%char.
    skip_pattern "f"%char. skip_pattern "b"%char. skip_pattern "e"%char.
    reflexivity. }
  repeat match goal with |- _ /\ _ => split end.
  - unfold detectCameraSource. fold (normalize (ts ++ "-front.mp4")).
    rewrite normalize_app.
    change (normalize "-front.mp4") with " front.mp4"%string. unfold patterns.
    skip_pattern "l"%char. skip_pattern "g"%char. skip_pattern "l"%char.
    skip_pattern "g"%char. skip_pattern "l"%char. skip_pattern "g"%char.
    hit_pattern " "%string "front.mp4"%string.
  - unfold detectCameraSource. fold (normalize (ts ++ "-back.mp4")).
    rewrite normalize_app.
    change (normalize "-back.mp4") with " back.mp4"%string. unfold patterns.
    skip_pattern "l"%char. skip_pattern "g"%char. skip_pattern "l"%char.
    skip_pattern "g"%char. skip_pattern "l"%char. skip_pattern "g"%char.
    skip_pattern "f"%char.
    hit_pattern " "%string "back.mp4"%string.
  - unfold detectCameraSource. fold (normalize (ts ++ "-left_repeater.mp4")).
    rewrite normalize_app.
    change (normalize "-left_repeater.mp4") with " left repeater.mp4"%string.
    unfold patterns.
    skip_pattern "i"%char. skip_pattern "g"%char.
    hit_pattern " "%string "left repeater.mp4"%string.
  - unfold detectCameraSource. fold (normalize (ts ++ "-right_repeater.mp4")).
    rewrite normalize_app.
    change (normalize "-right_repeater.mp4") with " right repeater.mp4"%string.
    unfold patterns.
    skip_pattern "l"%char. skip_pattern "l"%char. skip_pattern "l"%char.
    hit_pattern " "%string "right repeater.mp4"%string.
  - unfold detectCameraSource. fold (normalize (ts ++ "-left_pillar.mp4")).
    rewrite normalize_app.
    change (normalize "-left_pillar.mp4") with " left pillar.mp4"%string.
    unfold patterns.
    hit_pattern " "%string "left pillar.mp4"%string.
  - unfold detectCameraSource. fold (normalize (ts ++ "-right_pillar.mp4")).
    rewrite normalize_app.
    change (normalize "-right_pillar.mp4") with " right pillar.mp4"%string.
    unfold patterns.
    skip_pattern "e"%char.
    hit_pattern " "%string "right pillar.mp4"%string.
  - exact Hnone.
  - intros b. unfold videoLabel. cbn [name]. rewrite Hnone. reflexivity.
Qed.

Lemma clip_name_labels_witness :
  detectCameraSource "2024-05-17_09-30-12-front.mp4" = Some "Front"%string.
Proof.
  exact (proj1 (clip_name_labels "2024-05-17_09-30-12" eq_refl)).
Defined.

Lemma gap_char_normal (x : ascii) :
  gap_char x = true ->
  is_space (separator_to_space (toLowerCase_char x)) = true.
Proof.
  destruct x as [[] [] [] [] [] [] [] []]; vm_compute; intros H;
    try discriminate H; reflexivity.
Qed.

Lemma normalize_gap (seps : string) :
  all_chars gap_char seps = true ->
  all_chars is_space (normalize seps) = true.
Proof.
  induction seps as [|x seps IH]; [reflexivity|].
  cbn [all_chars]. intros H. apply andb_true_iff in H. destruct H as [Hx Hs].
  change (normalize (String x seps))
    with (String (separator_to_space (toLowerCase_char x)) (normalize seps)).
  cbn [all_chars]. rewrite (gap_char_normal x Hx), (IH Hs). reflexivity.
Qed.

(** [\s*] runs over any number of space characters. *)
Lemma match_spaces (rest : list atom) (tail : string) :
  (forall prev, match_here rest prev tail = true) ->
  forall sp prev,
    all_chars is_space sp = true ->
    match_here (Spaces :: rest) prev (sp ++ tail) = true.
Proof.
  intros Ht. induction sp as [|x sp IH]; intros prev Hsp.
  - cbn [append]. destruct tail; cbn [match_here]; rewrite Ht; reflexivity.
  - cbn [all_chars] in Hsp. apply andb_true_iff in Hsp. destruct Hsp as [Hx Hsp].
    specialize (IH (Some x) Hsp).
    cbn [append match_here] in *. rewrite Hx, IH. apply orb_true_r.
Qed.

Lemma test_inside (atoms : list atom) (pre s : string) :
  (forall prev, match_here atoms prev s = true) ->
  test atoms (pre ++ s) = true.
Proof. intros H. unfold test. apply search_after. apply H. Qed.

Lemma pillar_matches (side : string) (sp post : string) :
  all_chars is_space sp = true ->
  forall prev,
    match_here (lit side ++ [Spaces] ++ lit "pillar") prev
      (side ++ sp ++ "pillar" ++ post) = true.
Proof.
  intros Hsp. unfold lit. induction side as [|c side IH]; intros prev.
  - cbn [list_ascii_of_string map app append].
    apply match_spaces; [|exact Hsp].
    intros p. reflexivity.
  - cbn [list_ascii_of_string map app append match_here].
    rewrite Ascii.eqb_refl. apply IH.
Qed.

(** X16.  The pillar cameras come first: a name in which the word left, in
    any mix of capitals and small letters, is followed by any number of
    hyphens, underscores and space characters and then by the word pillar is
    labelled Left Pillar, whatever stands before and after, other camera
    words included. *)
Theorem left_pillar_first (pre w1 seps w2 post : string) :
  normalize w1 = "left"%string ->
  normalize w2 = "pillar"%string ->
  all_chars gap_char seps = true ->
  detectCameraSource (pre ++ w1 ++ seps ++ w2 ++ post) = Some "Left Pillar"%string.
Proof.
  intros H1 H2 Hs. unfold detectCameraSource.
  fold (normalize (pre ++ w1 ++ seps ++ w2 ++ post)).
  rewrite !normalize_app, H1, H2.
  unfold patterns. cbn [first_label].
  rewrite (test_inside _ (normalize pre)
             ("left" ++ normalize seps ++ "pillar" ++ normalize post)).
  - reflexivity.
  - apply (pillar_matches "left"). apply normalize_gap. exact Hs.
Qed.

Lemma left_pillar_first_witness :
  detectCameraSource "2024-05-17_right_repeater_LEFT-_ Pillar-front.mp4"
  = Some "Left Pillar"%string.
Proof.
  exact (left_pillar_first "2024-05-17_right_repeater_" "LEFT" "-_ " "Pillar"
           "-front.mp4" eq_refl eq_refl eq_refl).
Defined.

(** A pattern that begins with a word matches only where the word stands. *)
Lemma match_here_prefix (rest : list atom) :
  forall w prev s,
    match_here (lit w ++ rest) prev s = true -> String.prefix w s = true.
Proof.
  unfold lit. induction w as [|c w IH]; intros prev s H.
  - destruct s; reflexivity.
  - cbn [list_ascii_of_string map app match_here] in H.
    destruct s as [|x r]; [discriminate|].
    apply andb_true_iff in H. destruct H as [Hx Hr].
    apply Ascii.eqb_eq in Hx. subst x.
    cbn [String.prefix]. destruct (ascii_dec c c) as [_|N]; [|contradiction].
    apply (IH _ _ Hr).
Qed.

Lemma search_contains (atoms : list atom) (w : string) :
  (forall prev s, match_here atoms prev s = true -> String.prefix w s = true) ->
  forall s prev, search atoms prev s = true -> contains w s = true.
Proof.
  intros Hm. induction s as [|x r IH]; intros prev H.
  - cbn [search] in H. rewrite orb_false_r in H.
    cbn [contains]. rewrite (Hm _ _ H). reflexivity.
  - cbn [search] in H. cbn [contains]. apply orb_true_iff in H.
    destruct H as [H|H].
    + rewrite (Hm _ _ H). reflexivity.
    + rewrite (IH _ H). apply orb_true_r.
Qed.

Lemma test_word (w : string) (rest : list atom) (s : string) :
  contains w s = false -> test (lit w ++ rest) s = false.
Proof.
  intros Hc. unfold test. destruct (search (lit w ++ rest) None s) eqn:E; [|reflexivity].
  rewrite (search_contains (lit w ++ rest) w (match_here_prefix rest w) s None E) in Hc.
  discriminate.
Qed.

Lemma test_bounded_word (w : string) (rest : list atom) (s : string) :
  contains w s = false -> test ([Boundary] ++ lit w ++ rest) s = false.
Proof.
  intros Hc. unfold test.
  destruct (search ([Boundary] ++ lit w ++ rest) None s) eqn:E; [|reflexivity].
  rewrite (search_contains ([Boundary] ++ lit w ++ rest) w) with (s := s) (prev := None) in Hc;
    [discriminate | | exact E].
  intros prev t H. cbn [app match_here] in H.
  apply andb_true_iff in H. destruct H as [_ H].
  apply (match_here_prefix rest w prev t H).
Qed.

(** X17.  A name gets no label, and the video the label Unknown, as soon as
    none of the words left, right, front, back and rear occurs in it once
    capitals are made small and hyphens and underscores are made spaces. *)
Theorem no_camera_word_no_label (filename : string) :
  contains "left" (normalize filename) = false ->
  contains "right" (normalize filename) = false ->
  contains "front" (normalize filename) = false ->
  contains "back" (normalize filename) = false ->
  contains "rear" (normalize filename) = false ->
  detectCameraSource filename = None
  /\ forall b, videoLabel (mkFile filename b) = "Unknown"%string.
Proof.
  intros Hl Hr Hf Hb Hre.
  assert (Hnone : detectCameraSource filename = None).
  { unfold detectCameraSource. fold (normalize filename).
    unfold patterns. cbn [first_label].
    rewrite (test_word "left" _ _ Hl), (test_word "right" _ _ Hr).
    rewrite (test_word "left" _ _ Hl), (test_word "right" _ _ Hr).
    rewrite (test_bounded_word "left" _ _ Hl), (test_bounded_word "right" _ _ Hr).
    rewrite (test_bounded_word "front" _ _ Hf), (test_bounded_word "back" _ _ Hb).
    rewrite (test_bounded_word "rear" _ _ Hre). reflexivity. }
  split; [exact Hnone|].
  intros b. unfold videoLabel. cbn [name]. rewrite Hnone. reflexivity.
Qed.

Lemma no_camera_word_no_label_witness :
  detectCameraSource "2024-05-17_09-30-12-Cabin.mp4" = None.
Proof.
  exact (proj1 (no_camera_word_no_label "2024-05-17_09-30-12-Cabin.mp4"
                  eq_refl eq_refl eq_refl eq_refl eq_refl)).
Defined.
